(** * protoc-gen-cppstream: the header generator of tools/streaming_proto/cpp

    A shallow embedding of [tools/streaming_proto/cpp/main.cpp] and the
    properties of its emitters.  The C++ [stringstream] is a record that
    carries the buffer together with the formatting state ([flags], [width],
    [fill]); every emitter takes the stream and returns the stream, as the
    C++ functions take it by reference. *)

From Stdlib Require Import ZArith List String Ascii Bool Lia.
Import ListNotations.

Local Open Scope string_scope.
Local Open Scope Z_scope.

(** ** Strings *)

Module Str.

(** [repeat c n] is [std::string(n, c)]. *)
Fixpoint repeat (c : ascii) (n : nat) : string :=
  match n with
  | O => ""
  | S n' => String c (repeat c n')
  end.

(** Every character of the string satisfies [p]. *)
Fixpoint all (p : ascii -> bool) (s : string) : bool :=
  match s with
  | "" => true
  | String c s' => p c && all p s'
  end.

(** The strings of a list, one after the other. *)
Definition concat (ls : list string) : string := fold_right append "" ls.

(** [std::string::find]: the position of the first occurrence of [pat] in
    [s]; [None] stands for [string::npos]. *)
Definition find (s pat : string) : option nat := String.index 0 pat s.

End Str.

(** ** Numbers as text *)

(** The digit characters of [num_put] (lower case, as [uppercase] is never
    set). *)
Definition digit_char (d : Z) : ascii :=
  match d with
  | 0 => "0" | 1 => "1" | 2 => "2" | 3 => "3" | 4 => "4" | 5 => "5"
  | 6 => "6" | 7 => "7" | 8 => "8" | 9 => "9" | 10 => "a" | 11 => "b"
  | 12 => "c" | 13 => "d" | 14 => "e" | _ => "f"
  end%char.

Fixpoint digits_aux (fuel : nat) (b n : Z) (acc : string) : string :=
  match fuel with
  | O => acc
  | S fuel' =>
      let acc' := String (digit_char (n mod b)) acc in
      if n / b =? 0 then acc' else digits_aux fuel' b (n / b) acc'
  end.

(** The digits of [n >= 0] in base [b], most significant first, without
    leading zeros (["0"] for zero). *)
Definition digits (b n : Z) : string :=
  digits_aux (S (Z.to_nat (Z.log2 n))) b n "".

(** ** The output stream *)

Inductive basefield := dec | oct | hex.

(** [ios::fmtflags].  Of the flags only [basefield] is ever changed by the
    program; [adjustfield] stays unset, which pads on the left. *)
Record fmtflags := { base : basefield }.

(** A [stringstream] in good state ([good()] holds: neither [failbit] nor
    [badbit] is set), which is the state of every stream of the program: a
    stream in memory is created good and no insertion of the program makes
    it fail.  The error state is not part of the record. *)
Record stringstream := {
  str : string;          (* the buffer, [text.str()] *)
  flags : fmtflags;      (* [text.flags()] *)
  width : nat;           (* [text.width()] *)
  fill : ascii;          (* [text.fill()] *)
}.

(** A freshly constructed [stringstream]. *)
Definition new_stringstream : stringstream :=
  {| str := ""; flags := {| base := dec |}; width := 0; fill := " "%char |}.

Definition radix (f : fmtflags) : Z :=
  match base f with dec => 10 | oct => 8 | hex => 16 end.

(** [num_put] for [int]: signed in base ten; in base eight or sixteen the
    value is printed as the [unsigned int] of the same bits. *)
Definition format_int (f : fmtflags) (n : Z) : string :=
  match base f with
  | dec => if n <? 0 then "-" ++ digits 10 (- n) else digits 10 n
  | _ => digits (radix f) (n mod 2 ^ 32)
  end.

(** [num_put] for [uint64_t]. *)
Definition format_uint64 (f : fmtflags) (n : Z) : string :=
  digits (radix f) n.

(** Padding of a formatted insertion to the field width. *)
Definition pad (w : nat) (c : ascii) (s : string) : string :=
  Str.repeat c (w - String.length s) ++ s.

(** What [operator<<] takes on its right in this program. *)
Inductive item :=
| Text (s : string)            (* a [string] or a string literal *)
| Char (c : ascii)             (* a [char] *)
| Int (n : Z)                  (* an [int] *)
| UInt64 (n : Z)               (* a [uint64_t] *)
| endl
| sethex                       (* the manipulator [hex] *)
| setw (n : nat)
| setfill (c : ascii).

Coercion Text : string >-> item.

Definition newline : string := String (ascii_of_nat 10) "".

(** A formatted insertion into a good stream writes the padded text and
    resets the width ([width(0)]); [endl] is an unformatted [put] and leaves
    it alone. *)
Definition formatted (t : stringstream) (s : string) : stringstream :=
  {| str := str t ++ pad (width t) (fill t) s;
     flags := flags t; width := 0; fill := fill t |}.

Definition insert (t : stringstream) (x : item) : stringstream :=
  match x with
  | Text s => formatted t s
  | Char c => formatted t (String c "")
  | Int n => formatted t (format_int (flags t) n)
  | UInt64 n => formatted t (format_uint64 (flags t) n)
  | endl =>
      {| str := str t ++ newline; flags := flags t;
         width := width t; fill := fill t |}
  | sethex =>
      {| str := str t; flags := {| base := hex |};
         width := width t; fill := fill t |}
  | setw n =>
      {| str := str t; flags := flags t; width := n; fill := fill t |}
  | setfill c =>
      {| str := str t; flags := flags t; width := width t; fill := c |}
  end.

Notation "t << x" := (insert t x) (at level 50, left associativity).

(** [text.flags(fmt)]. *)
Definition set_flags (t : stringstream) (f : fmtflags) : stringstream :=
  {| str := str t; flags := f; width := width t; fill := fill t |}.

(** ** Descriptors (google/protobuf/descriptor.proto) *)

Record EnumValueDescriptorProto := {
  value_name : string;
  value_number : Z;                    (* int32 *)
}.

Record EnumDescriptorProto := {
  enum_name : string;
  enum_value : list EnumValueDescriptorProto;
}.

Inductive Label := LABEL_OPTIONAL | LABEL_REQUIRED | LABEL_REPEATED.

Inductive Type_ :=
| TYPE_DOUBLE | TYPE_FLOAT | TYPE_INT64 | TYPE_UINT64 | TYPE_INT32
| TYPE_FIXED64 | TYPE_FIXED32 | TYPE_BOOL | TYPE_STRING | TYPE_GROUP
| TYPE_MESSAGE | TYPE_BYTES | TYPE_UINT32 | TYPE_ENUM | TYPE_SFIXED32
| TYPE_SFIXED64 | TYPE_SINT32 | TYPE_SINT64.

(** [FieldOptions]; [packed] is an optional field, [None] when unset. *)
Record FieldOptions := { packed_opt : option bool }.

(** The accessor [options().packed()]: the default [false] when unset. *)
Definition packed (o : FieldOptions) : bool :=
  match packed_opt o with Some b => b | None => false end.

Record FieldDescriptorProto := {
  field_name : string;
  field_number : Z;                    (* int32 *)
  field_label : Label;
  field_type : Type_;
  field_type_name : string;
  field_options : FieldOptions;
}.

#[warnings="-register-all"]
Inductive DescriptorProto := {
  message_name : string;
  enum_type : list EnumDescriptorProto;
  nested_type : list DescriptorProto;
  field : list FieldDescriptorProto;
}.

Record FileDescriptorProto := {
  file_name : string;
  package : string;
  file_enum_type : list EnumDescriptorProto;
  message_type : list DescriptorProto;
}.

Record CodeGeneratorRequest := {
  file_to_generate : list string;
  parameter : string;
  proto_file : list FileDescriptorProto;
}.

Record File := {
  name : string;
  content : string;
}.

(** [supported_features] is an optional [uint64]: [None] when unset. *)
Record CodeGeneratorResponse := {
  supported_features : option Z;
  file : list File;
}.

Definition FEATURE_PROTO3_OPTIONAL : Z := 1.

(** ** Collaborators

    [stream_proto_utils.h] and [string_utils.h] are used by [main.cpp]
    through the functions below; they are an interface of the emitters. *)

Class StreamProtoUtils := {
  INDENT : string;
  make_constant_name : string -> string;
  get_proto_type : FieldDescriptorProto -> string;
  replace_string : string -> ascii -> ascii -> string;
  split : string -> ascii -> list string;
  should_generate_for_file : CodeGeneratorRequest -> string -> bool;
  (* the bit layout of a field id *)
  FIELD_TYPE_SHIFT : Z;
  FIELD_COUNT_SHIFT : Z;
  field_type_code : Type_ -> Z;
  FIELD_COUNT_SINGLE : Z;
  FIELD_COUNT_REPEATED : Z;
  FIELD_COUNT_PACKED : Z;
  (* [response.SerializeToOstream] *)
  SerializeToString : CodeGeneratorResponse -> string;
}.

(** Modelled from the spec: the test of [stripPrefix], "rawName begins
    exactly with prefix", with the remainder when it does. *)
Fixpoint strip_from (str pre : string) : option string :=
  match pre, str with
  | "", _ => Some str
  | String p pre', String c str' =>
      if Ascii.eqb c p then strip_from str' pre' else None
  | String _ _, "" => None
  end.

(** Modelled from the spec: [stripPrefix] of string_utils, whose body is
    missing from the sources.  "If rawName begins exactly with prefix,
    returns the remainder; otherwise returns rawName unchanged." *)
Definition stripPrefix (str pre : string) : string :=
  match strip_from str pre with
  | Some rest => rest
  | None => str
  end.

(** Modelled from the spec: what a field id records of the repetition of a
    field, "whether it is repeated/packed": packed, or else repeated, or
    else single. *)
Inductive FieldCount := COUNT_SINGLE | COUNT_REPEATED | COUNT_PACKED.

(** Modelled from the spec: the count of a field, from its packed option
    and its label. *)
Definition field_count (f : FieldDescriptorProto) : FieldCount :=
  if packed (field_options f) then COUNT_PACKED
  else match field_label f with
       | LABEL_REPEATED => COUNT_REPEATED
       | _ => COUNT_SINGLE
       end.

Section Emitters.

Context {utils : StreamProtoUtils}.

Definition field_count_code (c : FieldCount) : Z :=
  match c with
  | COUNT_SINGLE => FIELD_COUNT_SINGLE
  | COUNT_REPEATED => FIELD_COUNT_REPEATED
  | COUNT_PACKED => FIELD_COUNT_PACKED
  end.

(** Modelled from the spec: [get_field_id] of stream_proto_utils, whose body
    is missing from the sources.  "The 64-bit value is partitioned into
    fixed bit ranges that jointly and losslessly record: the field's number,
    its wire type (from the fixed catalogue), and whether it is
    repeated/packed."  The number takes the low 32 bits, the type code the
    range that starts at [FIELD_TYPE_SHIFT], the count code the range that
    starts at [FIELD_COUNT_SHIFT]; the result is a [uint64_t]. *)
Definition get_field_id (f : FieldDescriptorProto) : Z :=
  let result := field_number f mod 2 ^ 32 in
  let result := Z.lor result (Z.shiftl (field_type_code (field_type f)) FIELD_TYPE_SHIFT) in
  let result := Z.lor result (Z.shiftl (field_count_code (field_count f)) FIELD_COUNT_SHIFT) in
  result mod 2 ^ 64.

(** ** main.cpp *)

Definition GENERATE_MAPPING : bool := true.

Definition make_filename (file_descriptor : FileDescriptorProto) : string :=
  file_name file_descriptor ++ ".h".

(** The character ["] of the C++ literal ["\""]. *)
Definition quote : string := String (ascii_of_nat 34) "".

(** [for (int i=0; i<N; i++) body(text, xs(i))]. *)
Definition for_each {A : Type} (xs : list A) (text : stringstream)
    (body : stringstream -> A -> stringstream) : stringstream :=
  fold_left body xs text.

Definition write_enum (text : stringstream) (enu : EnumDescriptorProto)
    (indent : string) : stringstream :=
  let N := Z.of_nat (List.length (enum_value enu)) in
  let text := text << indent << "// enum " << enum_name enu << endl in
  let text := for_each (enum_value enu) text (fun text value =>
    text << indent << "const int "
         << make_constant_name (value_name value)
         << " = " << Int (value_number value) << ";" << endl) in
  let text :=
    if GENERATE_MAPPING then
      let name := make_constant_name (enum_name enu) in
      let prefix := name ++ "_" in
      let text := text << indent << "static const int _ENUM_" << name
                       << "_COUNT = " << Int N << ";" << endl in
      let text := text << indent << "static const char* _ENUM_" << name
                       << "_NAMES[" << Int N << "] = {" << endl in
      let text := for_each (enum_value enu) text (fun text value =>
        text << indent << INDENT << quote
             << stripPrefix (value_name value) prefix << (quote ++ ",") << endl) in
      let text := text << indent << "};" << endl in
      let text := text << indent << "static const int _ENUM_" << name
                       << "_VALUES[" << Int N << "] = {" << endl in
      let text := for_each (enum_value enu) text (fun text value =>
        text << indent << INDENT << make_constant_name (value_name value)
             << "," << endl) in
      text << indent << "};" << endl
    else text in
  text << endl.

Definition write_field (text : stringstream) (field : FieldDescriptorProto)
    (indent : string) : stringstream :=
  let optional_comment :=
    match field_label field with LABEL_OPTIONAL => "optional " | _ => "" end in
  let repeated_comment :=
    match field_label field with LABEL_REPEATED => "repeated " | _ => "" end in
  let proto_type := get_proto_type field in
  let packed_comment :=
    if packed (field_options field) then " [packed=true]" else "" in
  let text := text << indent << "// " << optional_comment << repeated_comment
                   << proto_type << Char " " << field_name field << " = "
                   << Int (field_number field) << packed_comment << Char ";"
                   << endl in
  let text := text << indent << "const uint64_t "
                   << make_constant_name (field_name field) << " = 0x" in
  let fmt := flags text in
  let text := text << setfill "0" << setw 16 << sethex
                   << UInt64 (get_field_id field) in
  let text := set_flags text fmt in
  let text := text << "LL;" << endl in
  text << endl.

Fixpoint write_message (text : stringstream) (message : DescriptorProto)
    (indent : string) {struct message} : stringstream :=
  let indented := indent ++ INDENT in
  let text := text << indent << "// message " << message_name message << endl in
  let text := text << indent << "namespace " << message_name message << " {"
                   << endl in
  (* Enums *)
  let text := for_each (enum_type message) text (fun text e =>
    write_enum text e indented) in
  (* Nested classes *)
  let text := for_each (nested_type message) text (fun text m =>
    write_message text m indented) in
  (* Fields *)
  let text := for_each (field message) text (fun text f =>
    write_field text f indented) in
  let text :=
    if GENERATE_MAPPING then
      let N := Z.of_nat (List.length (field message)) in
      let text := text << indented << "static const int _FIELD_COUNT = "
                       << Int N << ";" << endl in
      let text := text << indented << "static const char* _FIELD_NAMES["
                       << Int N << "] = {" << endl in
      let text := for_each (field message) text (fun text f =>
        text << indented << INDENT << quote << field_name f
             << (quote ++ ",") << endl) in
      let text := text << indented << "};" << endl in
      let text := text << indented << "static const uint64_t _FIELD_IDS["
                       << Int N << "] = {" << endl in
      let text := for_each (field message) text (fun text f =>
        text << indented << INDENT << make_constant_name (field_name f)
             << "," << endl) in
      text << indented << "};" << endl << endl
    else text in
  let text := text << indent << "} //" << message_name message << endl in
  text << endl.

(** [write_header_file] adds one file to the response and may set its
    capability flag. *)
Definition write_header_file (request_parameter : string)
    (response : CodeGeneratorResponse) (file_descriptor : FileDescriptorProto)
    : CodeGeneratorResponse :=
  let text := new_stringstream in
  let text := text << "// Generated by protoc-gen-cppstream. DO NOT MODIFY."
                   << endl in
  let text := text << "// source: " << file_name file_descriptor << endl
                   << endl in
  let header := "ANDROID_" ++ replace_string (file_name file_descriptor) "/" "_" in
  let header := replace_string header "." "_" ++ "_stream_h" in
  let header := make_constant_name header in
  let text := text << "#ifndef " << header << endl in
  let text := text << "#define " << header << endl in
  let text := text << endl in
  let namespaces := split (package file_descriptor) "." in
  let text := for_each namespaces text (fun text it =>
    text << "namespace " << it << " {" << endl) in
  let text := text << endl in
  let text := for_each (file_enum_type file_descriptor) text (fun text e =>
    write_enum text e "") in
  let text := for_each (message_type file_descriptor) text (fun text m =>
    write_message text m "") in
  let text := for_each (rev namespaces) text (fun text it =>
    text << "} // " << it << endl) in
  let text := text << endl in
  let text := text << "#endif // " << header << endl in
  let response :=
    match Str.find request_parameter "experimental_allow_proto3_optional" with
    | Some _ =>
        {| supported_features := Some FEATURE_PROTO3_OPTIONAL;
           file := file response |}
    | None => response
    end in
  {| supported_features := supported_features response;
     file := file response ++
       [ {| name := make_filename file_descriptor; content := str text |} ] |}.

(** Modelled from the spec: the class of the global [ERRORS], declared in
    [Errors.h], which is missing from the sources.  "ErrorLog: process-wide
    accumulator of (message) tuples recorded during a run; if non-empty at
    end of run, suppresses all output." *)
Definition Errors := list string.

(** Modelled from the spec: [Errors::HasErrors], the log is not empty. *)
Definition HasErrors (e : Errors) : bool :=
  match e with
  | [] => false
  | _ :: _ => true
  end.

(** Modelled from the spec: [Errors::Print], what it sends to the
    diagnostic stream: "accumulated error messages surfaced", one a line. *)
Definition Print (e : Errors) : string :=
  Str.concat (map (fun msg => msg ++ newline) e).

(** What a run can see and change outside of its own variables: the error
    log and the two output channels. *)
Record World := {
  ERRORS : Errors;
  cout : string;
  cerr : string;
}.

(** Whether the request parameter names the feature, as [write_header_file]
    looks for it. *)
Definition asks_proto3_optional (request_parameter : string) : bool :=
  match Str.find request_parameter "experimental_allow_proto3_optional" with
  | Some _ => true
  | None => false
  end.

(** The response before any file is written. *)
Definition empty_response : CodeGeneratorResponse :=
  {| supported_features := None; file := [] |}.

(** The state in which a process starts. *)
Definition process_start : World :=
  {| ERRORS := []; cout := ""; cerr := "" |}.

(** Whether the request asks for a file, as [main] tests it. *)
Definition eligible (request : CodeGeneratorRequest)
    (file_descriptor : FileDescriptorProto) : bool :=
  should_generate_for_file request (file_name file_descriptor).

(** The loop of [main], "Build the files we need", from an empty response. *)
Definition build_files (request : CodeGeneratorRequest) : CodeGeneratorResponse :=
  fold_left
    (fun response file_descriptor =>
       if should_generate_for_file request (file_name file_descriptor)
       then write_header_file (parameter request) response file_descriptor
       else response)
    (proto_file request)
    empty_response.

(** [main] on the request that [ParseFromIstream] read: the exit status and
    the world it leaves. *)
Definition main (request : CodeGeneratorRequest) (w : World) : Z * World :=
  let response := build_files request in
  if HasErrors (ERRORS w) then
    (1, {| ERRORS := ERRORS w; cout := cout w;
           cerr := cerr w ++ Print (ERRORS w) |})
  else
    (0, {| ERRORS := ERRORS w;
           cout := cout w ++ SerializeToString response;
           cerr := cerr w |}).

End Emitters.
(** ** The rendered text, line by line

    A stream whose width is zero and whose base is ten is [plain]; on such a
    stream an insertion appends the text of its argument, numbers in
    decimal.  The emitters are followed on plain streams, and what they
    append is given as a list of lines. *)

Definition plain (s : string) (c : ascii) : stringstream :=
  {| str := s; flags := {| base := dec |}; width := 0; fill := c |}.

(** Default formatting of an [int]: base ten, a minus sign when negative,
    no padding. *)
Definition decimal (n : Z) : string :=
  if n <? 0 then "-" ++ digits 10 (- n) else digits 10 n.

(** Sixteen hexadecimal digits, zero-padded on the left. *)
Definition hex16 (n : Z) : string := pad 16 "0" (digits 16 n).

Fixpoint unlines (ls : list string) : string :=
  match ls with
  | [] => ""
  | l :: ls' => l ++ newline ++ unlines ls'
  end.

Section Lines.

Context {utils : StreamProtoUtils}.

Definition enum_constant_line (indent : string) (v : EnumValueDescriptorProto) : string :=
  indent ++ "const int " ++ make_constant_name (value_name v) ++ " = "
         ++ decimal (value_number v) ++ ";".

(** The entries of the table [_ENUM_<name>_NAMES]. *)
Definition enum_names_table (enu : EnumDescriptorProto) : list string :=
  map (fun v => stripPrefix (value_name v)
                  (make_constant_name (enum_name enu) ++ "_"))
      (enum_value enu).

(** The entries of the table [_ENUM_<name>_VALUES]. *)
Definition enum_values_table (enu : EnumDescriptorProto) : list string :=
  map (fun v => make_constant_name (value_name v)) (enum_value enu).

(** A line of a table of string literals, and of a table of constants. *)
Definition quoted_entry (indent : string) (e : string) : string :=
  indent ++ INDENT ++ quote ++ e ++ quote ++ ",".

Definition constant_entry (indent : string) (e : string) : string :=
  indent ++ INDENT ++ e ++ ",".

Definition enum_lines (enu : EnumDescriptorProto) (indent : string) : list string :=
  let N := Z.of_nat (List.length (enum_value enu)) in
  let name := make_constant_name (enum_name enu) in
  [indent ++ "// enum " ++ enum_name enu]
  ++ map (enum_constant_line indent) (enum_value enu)
  ++ [indent ++ "static const int _ENUM_" ++ name ++ "_COUNT = " ++ decimal N ++ ";";
      indent ++ "static const char* _ENUM_" ++ name ++ "_NAMES[" ++ decimal N ++ "] = {"]
  ++ map (quoted_entry indent) (enum_names_table enu)
  ++ [indent ++ "};";
      indent ++ "static const int _ENUM_" ++ name ++ "_VALUES[" ++ decimal N ++ "] = {"]
  ++ map (constant_entry indent) (enum_values_table enu)
  ++ [indent ++ "};"; ""].

Definition field_comment_line (f : FieldDescriptorProto) (indent : string) : string :=
  indent ++ "// "
    ++ match field_label f with LABEL_OPTIONAL => "optional " | _ => "" end
    ++ match field_label f with LABEL_REPEATED => "repeated " | _ => "" end
    ++ get_proto_type f ++ " " ++ field_name f ++ " = " ++ decimal (field_number f)
    ++ (if packed (field_options f) then " [packed=true]" else "") ++ ";".

Definition field_lines (f : FieldDescriptorProto) (indent : string) : list string :=
  [field_comment_line f indent;
   indent ++ "const uint64_t " ++ make_constant_name (field_name f) ++ " = 0x"
          ++ hex16 (get_field_id f) ++ "LL;";
   ""].

(** The two reflection tables of a message. *)
Definition field_table_lines (fields : list FieldDescriptorProto) (indented : string)
    : list string :=
  let N := Z.of_nat (List.length fields) in
  [indented ++ "static const int _FIELD_COUNT = " ++ decimal N ++ ";";
   indented ++ "static const char* _FIELD_NAMES[" ++ decimal N ++ "] = {"]
  ++ map (fun f => quoted_entry indented (field_name f)) fields
  ++ [indented ++ "};";
      indented ++ "static const uint64_t _FIELD_IDS[" ++ decimal N ++ "] = {"]
  ++ map (fun f => constant_entry indented (make_constant_name (field_name f))) fields
  ++ [indented ++ "};"; ""].

Fixpoint message_lines (m : DescriptorProto) (indent : string) {struct m} : list string :=
  let indented := indent ++ INDENT in
  [indent ++ "// message " ++ message_name m;
   indent ++ "namespace " ++ message_name m ++ " {"]
  ++ flat_map (fun e => enum_lines e indented) (enum_type m)
  ++ flat_map (fun n => message_lines n indented) (nested_type m)
  ++ flat_map (fun f => field_lines f indented) (field m)
  ++ field_table_lines (field m) indented
  ++ [indent ++ "} //" ++ message_name m; ""].

(** The include guard of a file. *)
Definition header_guard (fd : FileDescriptorProto) : string :=
  make_constant_name
    (replace_string ("ANDROID_" ++ replace_string (file_name fd) "/" "_") "." "_"
     ++ "_stream_h").

Definition file_lines (fd : FileDescriptorProto) : list string :=
  let namespaces := split (package fd) "." in
  ["// Generated by protoc-gen-cppstream. DO NOT MODIFY.";
   "// source: " ++ file_name fd;
   "";
   "#ifndef " ++ header_guard fd;
   "#define " ++ header_guard fd;
   ""]
  ++ map (fun it => "namespace " ++ it ++ " {") namespaces
  ++ [""]
  ++ flat_map (fun e => enum_lines e "") (file_enum_type fd)
  ++ flat_map (fun m => message_lines m "") (message_type fd)
  ++ map (fun it => "} // " ++ it) (rev namespaces)
  ++ [""; "#endif // " ++ header_guard fd].

End Lines.

(** ** Reading the scopes back from the rendered text *)

Definition is_newline (c : ascii) : bool := Ascii.eqb c (ascii_of_nat 10).

Definition no_newline (s : string) : bool :=
  Str.all (fun c => negb (is_newline c)) s.

Definition spaces (s : string) : bool :=
  Str.all (fun c => Ascii.eqb c " ") s.

(** The lines of a text, each one closed by a newline; [cur] is the line
    read so far. *)
Fixpoint lines_aux (s cur : string) : list string :=
  match s with
  | "" => match cur with "" => [] | _ => [cur] end
  | String c s' =>
      if is_newline c then cur :: lines_aux s' ""
      else lines_aux s' (cur ++ String c "")
  end.

Definition lines (s : string) : list string := lines_aux s "".

Fixpoint drop_spaces (s : string) : string :=
  match s with
  | "" => ""
  | String c s' => if Ascii.eqb c " " then drop_spaces s' else s
  end.

(** [chop_suffix suf s] is [Some a] when [s = a ++ suf]. *)
Fixpoint chop_suffix (suf s : string) : option string :=
  if String.eqb s suf then Some ""
  else match s with
       | "" => None
       | String c s' => option_map (String c) (chop_suffix suf s')
       end.

(** A scope opens on a line [namespace <name> {] and closes on a line
    [} //<name>], each after its indentation. *)
Inductive marker := Open (name : string) | Close (name : string).

Definition classify (line : string) : list marker :=
  let body := drop_spaces line in
  match strip_from body "namespace " with
  | Some rest =>
      match chop_suffix " {" rest with
      | Some n => [Open n]
      | None => []
      end
  | None =>
      match strip_from body "} //" with
      | Some n => [Close n]
      | None => []
      end
  end.

Definition scope_markers (text : string) : list marker :=
  flat_map classify (lines text).

(** A line that holds no newline and is no marker. *)
Definition quiet (l : string) : Prop :=
  no_newline l = true /\ classify l = [].

(** The tree of the scopes, and the tree of the names of a message. *)
#[warnings="-register-all"]
Inductive scope := Scope (name : string) (inner : list scope).

Fixpoint scope_of (m : DescriptorProto) : scope :=
  Scope (message_name m) (map scope_of (nested_type m)).

Fixpoint markers_of (t : scope) : list marker :=
  match t with
  | Scope n inner => Open n :: flat_map markers_of inner ++ [Close n]
  end.

(** The scopes of a sequence of markers.  [stack] holds, for every scope
    still open, its name and the scopes closed before it on its level;
    [done] holds the scopes closed on the current level, the last first.
    [None] when a scope is closed under another name or left open. *)
Fixpoint parse_scopes (ms : list marker) (stack : list (string * list scope))
    (done : list scope) : option (list scope) :=
  match ms with
  | [] => match stack with [] => Some (rev done) | _ :: _ => None end
  | Open n :: ms' => parse_scopes ms' ((n, done) :: stack) []
  | Close n :: ms' =>
      match stack with
      | (n', outer) :: stack' =>
          if String.eqb n n'
          then parse_scopes ms' stack' (Scope n (rev done) :: outer)
          else None
      | [] => None
      end
  end.

(** Names as the schema compiler admits them: letters, digits, underscores. *)
Definition is_ident_char (c : ascii) : bool :=
  let n := nat_of_ascii c in
  ((48 <=? n) && (n <=? 57) || (65 <=? n) && (n <=? 90)
   || (97 <=? n) && (n <=? 122) || (n =? 95))%nat.

Definition ident (s : string) : bool := Str.all is_ident_char s.

Section WellFormed.

Context {utils : StreamProtoUtils}.

(** A name is an identifier and so is its constant name. *)
Definition name_ok (s : string) : bool :=
  ident s && ident (make_constant_name s).

Definition enum_ok (e : EnumDescriptorProto) : bool :=
  name_ok (enum_name e)
  && forallb (fun v => name_ok (value_name v)) (enum_value e).

Definition field_ok (f : FieldDescriptorProto) : bool :=
  name_ok (field_name f) && no_newline (get_proto_type f).

Fixpoint message_ok (m : DescriptorProto) : bool :=
  ident (message_name m)
  && forallb enum_ok (enum_type m)
  && forallb message_ok (nested_type m)
  && forallb field_ok (field m).

End WellFormed.

(** ** Reading a number back from its digits *)

Definition digit_value (c : ascii) : Z :=
  let n := Z.of_nat (nat_of_ascii c) in
  if (48 <=? n) && (n <=? 57) then n - 48
  else if (97 <=? n) && (n <=? 102) then n - 87
  else 0.

Definition is_hex_digit (c : ascii) : bool :=
  let n := Z.of_nat (nat_of_ascii c) in
  (48 <=? n) && (n <=? 57) || (97 <=? n) && (n <=? 102).

(** The number that the digits [s] continue from [acc], in base [b]. *)
Fixpoint number_of (b : Z) (s : string) (acc : Z) : Z :=
  match s with
  | "" => acc
  | String c s' => number_of b s' (acc * b + digit_value c)
  end.

(** ** The integer suffix of a C++ literal

    [u] or [U] makes the literal unsigned; [ll] or [LL] makes it a
    [long long], of 64 bits. *)
Definition suffix_unsigned (sfx : string) : bool :=
  negb (Str.all (fun c => negb (Ascii.eqb c "u" || Ascii.eqb c "U")) sfx).

Definition suffix_long_long (sfx : string) : bool :=
  match Str.find sfx "LL", Str.find sfx "ll" with
  | None, None => false
  | _, _ => true
  end.

(** ** The layout of a field id *)

Definition all_types : list Type_ :=
  [TYPE_DOUBLE; TYPE_FLOAT; TYPE_INT64; TYPE_UINT64; TYPE_INT32;
   TYPE_FIXED64; TYPE_FIXED32; TYPE_BOOL; TYPE_STRING; TYPE_GROUP;
   TYPE_MESSAGE; TYPE_BYTES; TYPE_UINT32; TYPE_ENUM; TYPE_SFIXED32;
   TYPE_SFIXED64; TYPE_SINT32; TYPE_SINT64].

Definition all_counts : list FieldCount :=
  [COUNT_SINGLE; COUNT_REPEATED; COUNT_PACKED].

Fixpoint distinct (l : list Z) : bool :=
  match l with
  | [] => true
  | x :: l' => negb (existsb (Z.eqb x) l') && distinct l'
  end.

(** The value of an [int32]. *)
Definition int32 (n : Z) : Prop := - 2 ^ 31 <= n < 2 ^ 31.

Section Layout.

Context {utils : StreamProtoUtils}.

(** The three bit ranges of the layout do not overlap, lie within 64 bits,
    and every type and every count has a code of its own that fits its
    range. *)
Definition layout_ok : bool :=
  (32 <=? FIELD_TYPE_SHIFT) && (FIELD_TYPE_SHIFT <=? FIELD_COUNT_SHIFT)
  && (FIELD_COUNT_SHIFT <=? 64)
  && forallb (fun t => (0 <=? field_type_code t)
                       && (field_type_code t
                           <? 2 ^ (FIELD_COUNT_SHIFT - FIELD_TYPE_SHIFT)))
             all_types
  && distinct (map field_type_code all_types)
  && forallb (fun c => (0 <=? field_count_code c)
                       && (field_count_code c <? 2 ^ (64 - FIELD_COUNT_SHIFT)))
             all_counts
  && distinct (map field_count_code all_counts).

End Layout.

(** ** An instance of the collaborators

    Four spaces of indentation; constant names in upper case, an underscore
    where a capital follows a small letter; the type numbers of
    descriptor.proto at bit 32 and the counts 1, 2 and 5 at bit 40.  The
    emitters are run with it on the descriptors below. *)

Module Sample.

Definition is_upper (c : ascii) : bool :=
  let n := nat_of_ascii c in ((65 <=? n) && (n <=? 90))%nat.

Definition is_lower (c : ascii) : bool :=
  let n := nat_of_ascii c in ((97 <=? n) && (n <=? 122))%nat.

Definition to_upper (c : ascii) : ascii :=
  if is_lower c then ascii_of_nat (nat_of_ascii c - 32) else c.

Fixpoint constant_name (s : string) (underscore_next : bool) : string :=
  match s with
  | "" => ""
  | String c s' =>
      if is_upper c then
        (if underscore_next then "_" else "") ++ String c (constant_name s' false)
      else if is_lower c then String (to_upper c) (constant_name s' true)
      else if Ascii.eqb c "_" then String c (constant_name s' false)
      else String c (constant_name s' underscore_next)
  end.

Definition proto_type (f : FieldDescriptorProto) : string :=
  match field_type f with
  | TYPE_DOUBLE => "double" | TYPE_FLOAT => "float" | TYPE_INT64 => "int64"
  | TYPE_UINT64 => "uint64" | TYPE_INT32 => "int32" | TYPE_FIXED64 => "fixed64"
  | TYPE_FIXED32 => "fixed32" | TYPE_BOOL => "bool" | TYPE_STRING => "string"
  | TYPE_GROUP => "group" | TYPE_BYTES => "bytes" | TYPE_UINT32 => "uint32"
  | TYPE_SFIXED32 => "sfixed32" | TYPE_SFIXED64 => "sfixed64"
  | TYPE_SINT32 => "sint32" | TYPE_SINT64 => "sint64"
  | TYPE_MESSAGE | TYPE_ENUM => field_type_name f
  end.

Fixpoint replace (s : string) (replaced replacement : ascii) : string :=
  match s with
  | "" => ""
  | String c s' =>
      String (if Ascii.eqb c replaced then replacement else c)
             (replace s' replaced replacement)
  end.

Fixpoint split_at (s : string) (delimiter : ascii) (cur : string) : list string :=
  match s with
  | "" => [cur]
  | String c s' =>
      if Ascii.eqb c delimiter then cur :: split_at s' delimiter ""
      else split_at s' delimiter (cur ++ String c "")
  end.

Definition type_code (t : Type_) : Z :=
  match t with
  | TYPE_DOUBLE => 1 | TYPE_FLOAT => 2 | TYPE_INT64 => 3 | TYPE_UINT64 => 4
  | TYPE_INT32 => 5 | TYPE_FIXED64 => 6 | TYPE_FIXED32 => 7 | TYPE_BOOL => 8
  | TYPE_STRING => 9 | TYPE_GROUP => 10 | TYPE_MESSAGE => 11
  | TYPE_BYTES => 12 | TYPE_UINT32 => 13 | TYPE_ENUM => 14
  | TYPE_SFIXED32 => 15 | TYPE_SFIXED64 => 16 | TYPE_SINT32 => 17
  | TYPE_SINT64 => 18
  end.

Definition serialize (r : CodeGeneratorResponse) : string :=
  Str.concat (map (fun f => name f ++ newline ++ content f) (file r)).

Definition utils : StreamProtoUtils := {|
  INDENT := "    ";
  make_constant_name := fun s => constant_name s false;
  get_proto_type := proto_type;
  replace_string := replace;
  split := fun s c => split_at s c "";
  should_generate_for_file := fun request file =>
    existsb (String.eqb file) (file_to_generate request);
  FIELD_TYPE_SHIFT := 32;
  FIELD_COUNT_SHIFT := 40;
  field_type_code := type_code;
  FIELD_COUNT_SINGLE := 1;
  FIELD_COUNT_REPEATED := 2;
  FIELD_COUNT_PACKED := 5;
  SerializeToString := serialize;
|}.

(** [enum Color { RED = 0; COLOR_GREEN = 1; }] *)
Definition color : EnumDescriptorProto :=
  {| enum_name := "Color";
     enum_value := [ {| value_name := "RED"; value_number := 0 |};
                     {| value_name := "COLOR_GREEN"; value_number := 1 |} ] |}.

(** [required int32 sides = 1;] *)
Definition sides : FieldDescriptorProto :=
  {| field_name := "sides"; field_number := 1; field_label := LABEL_REQUIRED;
     field_type := TYPE_INT32; field_type_name := "";
     field_options := {| packed_opt := None |} |}.

(** [optional int32 edges = 1;]: the number, type and count of [sides]
    under another name and label. *)
Definition edges : FieldDescriptorProto :=
  {| field_name := "edges"; field_number := 1; field_label := LABEL_OPTIONAL;
     field_type := TYPE_INT32; field_type_name := "";
     field_options := {| packed_opt := Some false |} |}.

(** [optional int32 cornerRadius = 2 [packed = true];] *)
Definition radius : FieldDescriptorProto :=
  {| field_name := "cornerRadius"; field_number := 2;
     field_label := LABEL_OPTIONAL; field_type := TYPE_INT32;
     field_type_name := "";
     field_options := {| packed_opt := Some true |} |}.

(** [repeated int32 cornerRadius = 2 [packed = true];]: [radius] with the
    label [repeated]. *)
Definition radii : FieldDescriptorProto :=
  {| field_name := "cornerRadius"; field_number := 2;
     field_label := LABEL_REPEATED; field_type := TYPE_INT32;
     field_type_name := "";
     field_options := {| packed_opt := Some true |} |}.

(** [repeated int32 sides = 1;]: [sides] with the label [repeated]. *)
Definition sides_repeated : FieldDescriptorProto :=
  {| field_name := "sides"; field_number := 1; field_label := LABEL_REPEATED;
     field_type := TYPE_INT32; field_type_name := "";
     field_options := {| packed_opt := None |} |}.

(** [message Point { required int32 sides = 1; }] *)
Definition point : DescriptorProto :=
  {| message_name := "Point"; enum_type := []; nested_type := [];
     field := [sides] |}.

(** [message Shape { enum Color; message Point; sides; cornerRadius }] *)
Definition shape : DescriptorProto :=
  {| message_name := "Shape"; enum_type := [color]; nested_type := [point];
     field := [sides; radius] |}.

Definition shapes_proto : FileDescriptorProto :=
  {| file_name := "a/shapes.proto"; package := "a.b";
     file_enum_type := [color]; message_type := [shape] |}.

(** A request for [a/shapes.proto]. *)
Definition request : CodeGeneratorRequest :=
  {| file_to_generate := ["a/shapes.proto"]; parameter := "";
     proto_file := [shapes_proto] |}.

(** A request that names the feature and asks for no file. *)
Definition request_optional : CodeGeneratorRequest :=
  {| file_to_generate := [];
     parameter := "experimental_allow_proto3_optional";
     proto_file := [shapes_proto] |}.

End Sample.

(** ** Good streams of any width, base and fill character *)

(** [t'] holds the text of [t] and what was appended to it. *)
Definition extends (t t' : stringstream) : Prop :=
  exists out, str t' = str t ++ out.

(** [t'] extends [t] under the same flags. *)
Definition grows (t t' : stringstream) : Prop :=
  flags t' = flags t /\ extends t t'.

(** [t'] grows from [t] with the same fill character. *)
Definition keeps (t t' : stringstream) : Prop :=
  grows t t' /\ fill t' = fill t.

(** ** Braces, indentation and numbers in the text *)

(** Opened minus closed braces. *)
Definition brace (c : ascii) : Z :=
  if Ascii.eqb c "{" then 1 else if Ascii.eqb c "}" then -1 else 0.

Fixpoint brace_balance (s : string) : Z :=
  match s with
  | "" => 0
  | String c s' => brace c + brace_balance s'
  end.

Definition is_brace (c : ascii) : bool := Ascii.eqb c "{" || Ascii.eqb c "}".

Definition not_brace (c : ascii) : bool := negb (is_brace c).

Definition no_brace (s : string) : bool := Str.all not_brace s.

(** A line is indented by [indent] when it is empty or starts with it. *)
Definition indented_by (indent l : string) : Prop :=
  l = "" \/ exists rest, l = indent ++ rest.

Definition is_decimal_digit (c : ascii) : bool :=
  let n := nat_of_ascii c in ((48 <=? n) && (n <=? 57))%nat.

(** The number of a text of one or more decimal digits; [None] for any
    other text. *)
Definition parse_digits (s : string) : option Z :=
  match s with
  | "" => None
  | String _ _ =>
      if Str.all is_decimal_digit s then Some (number_of 10 s 0) else None
  end.

(** The number of a decimal text: decimal digits, after a minus sign for a
    negative number; [None] for any other text. *)
Definition parse_decimal (s : string) : option Z :=
  match s with
  | String "-" digits => option_map Z.opp (parse_digits digits)
  | _ => parse_digits s
  end.

(** ** Repetition as the descriptor has it *)

Definition is_repeated (f : FieldDescriptorProto) : bool :=
  match field_label f with
  | LABEL_REPEATED => true
  | LABEL_OPTIONAL | LABEL_REQUIRED => false
  end.

(** Whether a field is repeated and whether it is packed, the two read off
    the descriptor one by one. *)
Definition repetition_status (f : FieldDescriptorProto) : bool * bool :=
  (is_repeated f, packed (field_options f)).

(** The packed option is only set on a repeated field. *)
Definition packed_only_repeated (f : FieldDescriptorProto) : Prop :=
  packed (field_options f) = true -> field_label f = LABEL_REPEATED.

Section FileChecks.

Context {utils : StreamProtoUtils}.

(** Every string that a descriptor brings into the text is made of
    characters that satisfy [q]. *)
Definition name_all (q : ascii -> bool) (s : string) : bool :=
  Str.all q s && Str.all q (make_constant_name s).

Definition enum_all (q : ascii -> bool) (e : EnumDescriptorProto) : bool :=
  name_all q (enum_name e)
  && forallb (fun v => name_all q (value_name v)) (enum_value e).

Definition field_all (q : ascii -> bool) (f : FieldDescriptorProto) : bool :=
  name_all q (field_name f) && Str.all q (get_proto_type f).

Fixpoint message_all (q : ascii -> bool) (m : DescriptorProto) : bool :=
  Str.all q (message_name m)
  && forallb (enum_all q) (enum_type m)
  && forallb (message_all q) (nested_type m)
  && forallb (field_all q) (field m).

Definition file_all (q : ascii -> bool) (fd : FileDescriptorProto) : bool :=
  Str.all q (file_name fd)
  && Str.all q (header_guard fd)
  && forallb (Str.all q) (split (package fd) ".")
  && forallb (enum_all q) (file_enum_type fd)
  && forallb (message_all q) (message_type fd).

(** A file whose lines can be read back: no name holds a newline, and the
    enums and messages are as [enum_ok] and [message_ok] ask. *)
Definition file_ok (fd : FileDescriptorProto) : bool :=
  no_newline (file_name fd)
  && no_newline (header_guard fd)
  && forallb no_newline (split (package fd) ".")
  && forallb enum_ok (file_enum_type fd)
  && forallb message_ok (message_type fd).

End FileChecks.

(** * Properties *)

(** ** Strings *)

Module StrFacts.

Lemma app_nil_r (s : string) : s ++ "" = s.
Proof. induction s as [|c s IH]; simpl; [reflexivity | now rewrite IH]. Qed.

Lemma app_assoc (a b c : string) : (a ++ b) ++ c = a ++ (b ++ c).
Proof. induction a as [|x a IH]; simpl; [reflexivity | now rewrite IH]. Qed.

Lemma length_app (a b : string) :
  String.length (a ++ b) = (String.length a + String.length b)%nat.
Proof. induction a as [|x a IH]; simpl; [reflexivity | now rewrite IH]. Qed.

Lemma app_inv_head (a b c : string) : a ++ b = a ++ c -> b = c.
Proof.
  induction a as [|x a IH]; simpl; intros H; [exact H|].
  injection H as H. now apply IH.
Qed.

(** Two decompositions of one string whose heads have the same length
    agree part by part. *)
Lemma app_inj_length (a b c d : string) :
  a ++ b = c ++ d -> String.length a = String.length c -> a = c /\ b = d.
Proof.
  revert c. induction a as [|x a IH]; intros [|y c]; simpl; intros H L;
    try discriminate.
  - now split.
  - injection H as -> H. injection L as L.
    destruct (IH _ H L) as [-> ->]. now split.
Qed.

Lemma length_repeat c n : String.length (Str.repeat c n) = n.
Proof. induction n as [|n IH]; simpl; [reflexivity | now rewrite IH]. Qed.

Lemma all_app p a b : Str.all p (a ++ b) = Str.all p a && Str.all p b.
Proof.
  induction a as [|x a IH]; simpl; [reflexivity|].
  now rewrite IH, andb_assoc.
Qed.

Lemma all_repeat p c n : p c = true -> Str.all p (Str.repeat c n) = true.
Proof. intros H. induction n as [|n IH]; simpl; [reflexivity | now rewrite H, IH]. Qed.

Lemma all_impl (p q : ascii -> bool) s :
  (forall c, p c = true -> q c = true) -> Str.all p s = true -> Str.all q s = true.
Proof.
  intros Hpq. induction s as [|c s IH]; simpl; [reflexivity|].
  intros H. apply andb_true_iff in H as [H1 H2].
  now rewrite (Hpq _ H1), IH.
Qed.

End StrFacts.

(** ** Plain streams *)

Lemma unlines_app (a b : list string) :
  unlines (a ++ b) = unlines a ++ unlines b.
Proof.
  induction a as [|l a IH]; simpl; [reflexivity|].
  now rewrite IH, !StrFacts.app_assoc.
Qed.

Lemma plain_text s c (x : string) : plain s c << x = plain (s ++ x) c.
Proof. reflexivity. Qed.

Lemma plain_char s c (x : ascii) :
  plain s c << Char x = plain (s ++ String x "") c.
Proof. reflexivity. Qed.

Lemma plain_int s c n : plain s c << Int n = plain (s ++ decimal n) c.
Proof. reflexivity. Qed.

Lemma plain_endl s c : plain s c << endl = plain (s ++ newline) c.
Proof. reflexivity. Qed.

(** A loop whose body appends [g x] to a plain stream appends the [g x] in
    the order of the list. *)
Lemma for_each_plain {A : Type} (body : stringstream -> A -> stringstream)
    (g : A -> list string) (xs : list A) :
  (forall s c x, In x xs -> exists c', body (plain s c) x = plain (s ++ unlines (g x)) c') ->
  forall s c, exists c',
    for_each xs (plain s c) body = plain (s ++ unlines (flat_map g xs)) c'.
Proof.
  unfold for_each. induction xs as [|x xs IH]; intros Hbody s c; simpl.
  - exists c. now rewrite StrFacts.app_nil_r.
  - destruct (Hbody s c x (or_introl eq_refl)) as [c1 ->].
    destruct (IH (fun s c y Hy => Hbody s c y (or_intror Hy))
                 (s ++ unlines (g x)) c1) as [c2 ->].
    exists c2. now rewrite unlines_app, StrFacts.app_assoc.
Qed.

(** The same when the body keeps the fill character. *)
Lemma for_each_plain_fill {A : Type} (body : stringstream -> A -> stringstream)
    (g : A -> list string) (xs : list A) :
  (forall s c x, body (plain s c) x = plain (s ++ unlines (g x)) c) ->
  forall s c,
    for_each xs (plain s c) body = plain (s ++ unlines (flat_map g xs)) c.
Proof.
  unfold for_each. intros Hbody. induction xs as [|x xs IH]; intros s c; simpl.
  - now rewrite StrFacts.app_nil_r.
  - now rewrite Hbody, IH, unlines_app, StrFacts.app_assoc.
Qed.

(** ** Induction on the message tree *)

Lemma DescriptorProto_nested_ind (P : DescriptorProto -> Prop) :
  (forall m, (forall n, In n (nested_type m) -> P n) -> P m) ->
  forall m, P m.
Proof.
  intros H. fix IH 1. intros [nm es ns fs]. apply H. simpl.
  induction ns as [|x ns IHns]; intros n Hn.
  - destruct Hn.
  - destruct Hn as [<- | Hn]; [apply IH | now apply IHns].
Qed.

Lemma flat_map_singleton {A B : Type} (f : A -> B) (xs : list A) :
  flat_map (fun x => [f x]) xs = map f xs.
Proof. induction xs as [|x xs IH]; simpl; [reflexivity | now rewrite IH]. Qed.

Lemma unlines_cons l ls : unlines (l :: ls) = l ++ newline ++ unlines ls.
Proof. reflexivity. Qed.

Lemma unlines_nil : unlines [] = "".
Proof. reflexivity. Qed.

Lemma list_app_cons {A : Type} (x : A) (l l' : list A) :
  ((x :: l) ++ l')%list = x :: (l ++ l')%list.
Proof. reflexivity. Qed.

Lemma list_app_nil {A : Type} (l : list A) : ([] ++ l)%list = l.
Proof. reflexivity. Qed.

(** Insertions into a plain stream, one after the other. *)
Ltac plain_inserts :=
  repeat first [ rewrite plain_text | rewrite plain_char
               | rewrite plain_int | rewrite plain_endl ].

(** Both sides as one right-nested concatenation. *)
Ltac flatten_text :=
  repeat first [ rewrite unlines_app | rewrite list_app_cons
               | rewrite list_app_nil | rewrite unlines_cons
               | rewrite unlines_nil | rewrite StrFacts.app_assoc
               | rewrite StrFacts.app_nil_r ].

Section Refinement.

Context {utils : StreamProtoUtils}.

Lemma write_enum_plain s c enu indent :
  write_enum (plain s c) enu indent
  = plain (s ++ unlines (enum_lines enu indent)) c.
Proof.
  unfold write_enum, GENERATE_MAPPING, enum_lines, enum_names_table,
    enum_values_table.
  plain_inserts.
  rewrite (for_each_plain_fill _ (fun v => [enum_constant_line indent v]))
    by (intros; plain_inserts; unfold enum_constant_line; f_equal;
        flatten_text; reflexivity).
  plain_inserts.
  rewrite (for_each_plain_fill _ (fun v => [quoted_entry indent
             (stripPrefix (value_name v)
                (make_constant_name (enum_name enu) ++ "_"))]))
    by (intros; plain_inserts; unfold quoted_entry; f_equal;
        flatten_text; reflexivity).
  plain_inserts.
  rewrite (for_each_plain_fill _ (fun v => [constant_entry indent
             (make_constant_name (value_name v))]))
    by (intros; plain_inserts; unfold constant_entry; f_equal;
        flatten_text; reflexivity).
  plain_inserts.
  rewrite !flat_map_singleton, !map_map.
  f_equal. flatten_text. reflexivity.
Qed.

(** The field id goes out as sixteen digits; the flags come back, the
    width is used up, the fill character stays ['0']. *)
Lemma plain_hex16 s c n :
  set_flags (plain s c << setfill "0" << setw 16 << sethex << UInt64 n)
            (flags (plain s c))
  = plain (s ++ hex16 n) "0".
Proof. reflexivity. Qed.

Lemma write_field_plain s c f indent :
  write_field (plain s c) f indent
  = plain (s ++ unlines (field_lines f indent)) "0".
Proof.
  unfold write_field, field_lines, field_comment_line.
  plain_inserts. rewrite plain_hex16. plain_inserts.
  f_equal. flatten_text. reflexivity.
Qed.

Lemma write_message_plain m : forall s c indent, exists c',
  write_message (plain s c) m indent
  = plain (s ++ unlines (message_lines m indent)) c'.
Proof.
  induction m as [m IH] using DescriptorProto_nested_ind.
  intros s c indent. destruct m as [nm es ns fs]. simpl in IH.
  cbn [write_message message_lines message_name enum_type nested_type field].
  unfold GENERATE_MAPPING, field_table_lines.
  plain_inserts.
  rewrite (for_each_plain_fill _ (fun e => enum_lines e (indent ++ INDENT)))
    by (intros; apply write_enum_plain).
  match goal with
  | |- context [for_each ns (plain ?X ?c0) ?body] =>
      destruct (for_each_plain body
                  (fun n => message_lines n (indent ++ INDENT)) ns
                  (fun s c n Hn => IH n Hn s c (indent ++ INDENT)) X c0)
        as [c1 ->]
  end.
  match goal with
  | |- context [for_each fs (plain ?X ?c0) ?body] =>
      destruct (for_each_plain body
                  (fun f => field_lines f (indent ++ INDENT)) fs
                  (fun s c f _ => ex_intro _ "0"%char
                                    (write_field_plain s c f (indent ++ INDENT)))
                  X c0)
        as [c2 ->]
  end.
  plain_inserts.
  rewrite (for_each_plain_fill _
             (fun f => [quoted_entry (indent ++ INDENT) (field_name f)]))
    by (intros; plain_inserts; unfold quoted_entry; f_equal;
        flatten_text; reflexivity).
  plain_inserts.
  rewrite (for_each_plain_fill _
             (fun f => [constant_entry (indent ++ INDENT)
                          (make_constant_name (field_name f))]))
    by (intros; plain_inserts; unfold constant_entry; f_equal;
        flatten_text; reflexivity).
  plain_inserts.
  rewrite !flat_map_singleton.
  exists c2. f_equal. flatten_text. reflexivity.
Qed.

Lemma write_header_file_plain p r fd :
  file (write_header_file p r fd)
  = (file r ++ [ {| name := make_filename fd;
                    content := unlines (file_lines fd) |} ])%list.
Proof.
  unfold write_header_file, file_lines, header_guard.
  change new_stringstream with (plain "" " ").
  plain_inserts.
  rewrite (for_each_plain_fill _ (fun it => ["namespace " ++ it ++ " {"]))
    by (intros; plain_inserts; f_equal; flatten_text; reflexivity).
  plain_inserts.
  rewrite (for_each_plain_fill _ (fun e => enum_lines e ""))
    by (intros; apply write_enum_plain).
  match goal with
  | |- context [for_each (message_type fd) (plain ?X ?c0) ?body] =>
      destruct (for_each_plain body (fun m => message_lines m "")
                  (message_type fd)
                  (fun s c m _ => write_message_plain m s c "") X c0)
        as [c1 ->]
  end.
  rewrite (for_each_plain_fill _ (fun it => ["} // " ++ it]))
    by (intros; plain_inserts; f_equal; flatten_text; reflexivity).
  plain_inserts. rewrite !flat_map_singleton.
  assert (forall (fs : list File) (a b : string), a = b ->
            (fs ++ [ {| name := make_filename fd; content := a |} ])%list
            = (fs ++ [ {| name := make_filename fd; content := b |} ])%list)
    as Hdoc by (now intros fs a b ->).
  destruct (Str.find p "experimental_allow_proto3_optional");
    cbn [file supported_features str]; apply Hdoc;
    flatten_text; reflexivity.
Qed.

End Refinement.

(** ** The field id *)

(** Bits put above a number that ends below them add up. *)
Lemma lor_shiftl_add (a b k : Z) :
  0 <= k -> 0 <= a < 2 ^ k -> Z.lor a (Z.shiftl b k) = a + b * 2 ^ k.
Proof.
  intros Hk Ha.
  rewrite <- (Z.add_lor_land a (b * 2 ^ k)), Z.shiftl_mul_pow2 by exact Hk.
  assert (Z.land a (b * 2 ^ k) = 0) as ->; [|lia].
  apply Z.bits_inj'. intros i Hi.
  rewrite Z.land_spec, Z.bits_0.
  destruct (Z.lt_ge_cases i k) as [Hlt | Hge].
  - now rewrite Z.mul_pow2_bits_low, andb_false_r.
  - rewrite <- (Z.mod_small a (2 ^ k)) by exact Ha.
    now rewrite Z.mod_pow2_bits_high by lia.
Qed.

Lemma distinct_map_inj {A : Type} (f : A -> Z) (l : list A) (a b : A) :
  distinct (map f l) = true -> In a l -> In b l -> f a = f b -> a = b.
Proof.
  induction l as [|x l IH]; simpl; [contradiction|].
  intros Hd Ha Hb Hab. apply andb_true_iff in Hd as [Hx Hd].
  apply negb_true_iff in Hx.
  assert (Hout : forall y, In y l -> f x <> f y).
  { intros y Hy Heq.
    assert (existsb (Z.eqb (f x)) (map f l) = true) as Hex; [|congruence].
    apply existsb_exists. exists (f y). split; [now apply in_map | lia]. }
  destruct Ha as [<- | Ha], Hb as [<- | Hb]; try reflexivity.
  - now destruct (Hout b Hb).
  - now destruct (Hout a Ha).
  - now apply IH.
Qed.

Lemma all_types_complete (t : Type_) : In t all_types.
Proof. destruct t; simpl; tauto. Qed.

Lemma all_counts_complete (c : FieldCount) : In c all_counts.
Proof. destruct c; simpl; tauto. Qed.

(** An [int32] is known by its low 32 bits. *)
Lemma int32_mod_inj (a b : Z) :
  int32 a -> int32 b -> a mod 2 ^ 32 = b mod 2 ^ 32 -> a = b.
Proof.
  unfold int32. intros Ha Hb H.
  assert (Hlow : forall x, - 2 ^ 31 <= x < 2 ^ 31 ->
            x mod 2 ^ 32 = if x <? 0 then x + 2 ^ 32 else x).
  { intros x Hx. destruct (Z.ltb_spec x 0).
    - rewrite <- (Z_mod_plus_full x 1 (2 ^ 32)).
      rewrite Z.mod_small; lia.
    - apply Z.mod_small. lia. }
  rewrite (Hlow a Ha), (Hlow b Hb) in H.
  destruct (Z.ltb_spec a 0), (Z.ltb_spec b 0); lia.
Qed.

Section FieldId.

Context {utils : StreamProtoUtils}.

Hypothesis layout : layout_ok = true.

Lemma layout_shifts :
  32 <= FIELD_TYPE_SHIFT <= FIELD_COUNT_SHIFT /\ FIELD_COUNT_SHIFT <= 64.
Proof.
  unfold layout_ok in layout. rewrite !andb_true_iff in layout. lia.
Qed.

Lemma layout_type_code (t : Type_) :
  0 <= field_type_code t < 2 ^ (FIELD_COUNT_SHIFT - FIELD_TYPE_SHIFT).
Proof.
  unfold layout_ok in layout. rewrite !andb_true_iff in layout.
  destruct layout as [[[[_ Hall] _] _] _].
  rewrite forallb_forall in Hall.
  specialize (Hall t (all_types_complete t)). lia.
Qed.

Lemma layout_count_code (c : FieldCount) :
  0 <= field_count_code c < 2 ^ (64 - FIELD_COUNT_SHIFT).
Proof.
  unfold layout_ok in layout. rewrite !andb_true_iff in layout.
  destruct layout as [[_ Hall] _].
  rewrite forallb_forall in Hall.
  specialize (Hall c (all_counts_complete c)). lia.
Qed.

Lemma layout_type_code_inj (t1 t2 : Type_) :
  field_type_code t1 = field_type_code t2 -> t1 = t2.
Proof.
  unfold layout_ok in layout. rewrite !andb_true_iff in layout.
  destruct layout as [[[_ Hd] _] _].
  apply (distinct_map_inj _ all_types); auto using all_types_complete.
Qed.

Lemma layout_count_code_inj (c1 c2 : FieldCount) :
  field_count_code c1 = field_count_code c2 -> c1 = c2.
Proof.
  unfold layout_ok in layout. rewrite !andb_true_iff in layout.
  destruct layout as [_ Hd].
  apply (distinct_map_inj _ all_counts); auto using all_counts_complete.
Qed.

(** With a layout whose ranges do not overlap the id is the sum of its
    three parts, each in its range. *)
Lemma get_field_id_sum (f : FieldDescriptorProto) :
  get_field_id f
  = 2 ^ FIELD_TYPE_SHIFT
    * (2 ^ (FIELD_COUNT_SHIFT - FIELD_TYPE_SHIFT)
       * field_count_code (field_count f)
       + field_type_code (field_type f))
    + field_number f mod 2 ^ 32.
Proof.
  destruct layout_shifts as [[H32 HTC] H64].
  pose proof (layout_type_code (field_type f)) as Ht.
  pose proof (layout_count_code (field_count f)) as Hc.
  pose proof (Z.mod_pos_bound (field_number f) (2 ^ 32) ltac:(lia)) as Hn.
  set (n := field_number f mod 2 ^ 32) in *.
  set (t := field_type_code (field_type f)) in *.
  set (c := field_count_code (field_count f)) in *.
  set (TS := FIELD_TYPE_SHIFT) in *. set (CS := FIELD_COUNT_SHIFT) in *.
  assert (HpT : 2 ^ 32 <= 2 ^ TS) by (apply Z.pow_le_mono_r; lia).
  assert (HpC : 2 ^ CS = 2 ^ TS * 2 ^ (CS - TS))
    by (rewrite <- Z.pow_add_r by lia; f_equal; lia).
  assert (Hp64 : 2 ^ 64 = 2 ^ CS * 2 ^ (64 - CS))
    by (rewrite <- Z.pow_add_r by lia; f_equal; lia).
  assert (0 < 2 ^ TS) by lia.
  assert (0 < 2 ^ (CS - TS)) by (apply Z.pow_pos_nonneg; lia).
  assert (0 < 2 ^ (64 - CS)) by (apply Z.pow_pos_nonneg; lia).
  unfold get_field_id. fold n t c TS CS.
  rewrite (lor_shiftl_add n t TS) by lia.
  assert (Hnt : 0 <= n + t * 2 ^ TS < 2 ^ CS) by nia.
  rewrite (lor_shiftl_add _ c CS) by lia.
  rewrite Z.mod_small by nia.
  rewrite HpC. ring.
Qed.

Lemma get_field_id_parts (f1 f2 : FieldDescriptorProto) :
  get_field_id f1 = get_field_id f2 ->
  field_number f1 mod 2 ^ 32 = field_number f2 mod 2 ^ 32
  /\ field_type f1 = field_type f2
  /\ field_count f1 = field_count f2.
Proof.
  rewrite !get_field_id_sum. intros H.
  destruct layout_shifts as [[H32 HTC] H64].
  assert (HpT : 2 ^ 32 <= 2 ^ FIELD_TYPE_SHIFT) by (apply Z.pow_le_mono_r; lia).
  pose proof (Z.mod_pos_bound (field_number f1) (2 ^ 32) ltac:(lia)).
  pose proof (Z.mod_pos_bound (field_number f2) (2 ^ 32) ltac:(lia)).
  apply Z.div_mod_unique in H as [H Hn]; [|lia|lia].
  rewrite Hn.
  pose proof (layout_type_code (field_type f1)).
  pose proof (layout_type_code (field_type f2)).
  apply Z.div_mod_unique in H as [Hc Ht]; [|lia|lia].
  split; [lia|]. split.
  - now apply layout_type_code_inj.
  - now apply layout_count_code_inj.
Qed.

End FieldId.

(** ** Digits *)

Lemma digit_char_hex (d : Z) : is_hex_digit (digit_char d) = true.
Proof.
  unfold digit_char.
  repeat match goal with
         | |- context [match ?x with _ => _ end] => destruct x
         end; reflexivity.
Qed.

Lemma digit_value_char (d : Z) : 0 <= d < 16 -> digit_value (digit_char d) = d.
Proof.
  intros H.
  assert (d = 0 \/ d = 1 \/ d = 2 \/ d = 3 \/ d = 4 \/ d = 5 \/ d = 6 \/ d = 7
          \/ d = 8 \/ d = 9 \/ d = 10 \/ d = 11 \/ d = 12 \/ d = 13 \/ d = 14
          \/ d = 15) as Hd by lia.
  repeat (destruct Hd as [-> | Hd]; [reflexivity|]). now subst.
Qed.

Lemma digits_aux_hex (fuel : nat) (b n : Z) (acc : string) :
  Str.all is_hex_digit acc = true ->
  Str.all is_hex_digit (digits_aux fuel b n acc) = true.
Proof.
  revert n acc. induction fuel as [|fuel IH]; intros n acc Hacc; simpl.
  - exact Hacc.
  - destruct (n / b =? 0); [|apply IH]; simpl; now rewrite digit_char_hex.
Qed.

(** A number below [b ^ k] has at most [k] digits. *)
Lemma digits_aux_length (fuel : nat) (b : Z) :
  1 < b ->
  forall (k : nat) (n : Z) (acc : string),
  (1 <= k)%nat -> 0 <= n < b ^ Z.of_nat k ->
  (String.length (digits_aux fuel b n acc) <= k + String.length acc)%nat.
Proof.
  intros Hb. induction fuel as [|fuel IH]; intros k n acc Hk Hn; simpl.
  - lia.
  - destruct (Z.eqb_spec (n / b) 0) as [Hq | Hq]; simpl; [lia|].
    destruct k as [|[|k]]; [lia | |].
    + exfalso. apply Hq. apply Z.div_small. simpl in Hn. lia.
    + specialize (IH (S k) (n / b) (String (digit_char (n mod b)) acc)).
      simpl String.length in IH.
      assert (0 <= n / b < b ^ Z.of_nat (S k)); [|lia].
      split; [apply Z.div_pos; lia|].
      apply Z.div_lt_upper_bound; [lia|].
      replace (Z.of_nat (S (S k))) with (Z.succ (Z.of_nat (S k))) in Hn by lia.
      rewrite Z.pow_succ_r in Hn by lia. lia.
Qed.

(** With fuel for every digit, the digits read back as the number. *)
Lemma digits_aux_number (b : Z) :
  1 < b <= 16 ->
  forall (fuel : nat) (n : Z) (acc : string),
  0 <= n < b ^ Z.of_nat fuel ->
  number_of b (digits_aux fuel b n acc) 0 = number_of b acc n.
Proof.
  intros Hb. induction fuel as [|fuel IH]; intros n acc Hn.
  - simpl in *. f_equal. lia.
  - cbn [digits_aux].
    assert (Hd : digit_value (digit_char (n mod b)) = n mod b).
    { apply digit_value_char. pose proof (Z.mod_pos_bound n b). lia. }
    destruct (Z.eqb_spec (n / b) 0) as [Hq | Hq].
    + cbn [number_of]. rewrite Hd. f_equal.
      pose proof (Z.div_mod n b). lia.
    + rewrite IH.
      * cbn [number_of]. rewrite Hd. f_equal.
        pose proof (Z.div_mod n b). lia.
      * split; [apply Z.div_pos; lia|].
        apply Z.div_lt_upper_bound; [lia|].
        replace (Z.of_nat (S fuel)) with (Z.succ (Z.of_nat fuel)) in Hn by lia.
        rewrite Z.pow_succ_r in Hn by lia. lia.
Qed.

Lemma digits_number (b n : Z) :
  1 < b <= 16 -> 0 <= n -> number_of b (digits b n) 0 = n.
Proof.
  intros Hb Hn. unfold digits. rewrite digits_aux_number; [reflexivity | lia |].
  split; [lia|].
  destruct (Z.eq_dec n 0) as [-> | Hn0]; [simpl; lia|].
  rewrite Nat2Z.inj_succ, Z2Nat.id by apply Z.log2_nonneg.
  apply Z.lt_le_trans with (2 ^ Z.succ (Z.log2 n)).
  - apply Z.log2_spec. lia.
  - apply Z.pow_le_mono_l. lia.
Qed.

Lemma number_of_zeros (b : Z) (k : nat) (s : string) :
  number_of b (Str.repeat "0" k ++ s) 0 = number_of b s 0.
Proof. induction k as [|k IH]; simpl; [reflexivity | exact IH]. Qed.

(** The sixteen digits of a [uint64_t]. *)
Lemma hex16_length (n : Z) :
  0 <= n < 2 ^ 64 -> String.length (hex16 n) = 16%nat.
Proof.
  intros Hn. unfold hex16, pad.
  rewrite StrFacts.length_app, StrFacts.length_repeat.
  pose proof (digits_aux_length (S (Z.to_nat (Z.log2 n))) 16 ltac:(lia)
                16%nat n "" ltac:(lia) ltac:(simpl; lia)) as H.
  fold (digits 16 n) in H. simpl in H. lia.
Qed.

Lemma hex16_digits (n : Z) : Str.all is_hex_digit (hex16 n) = true.
Proof.
  unfold hex16, pad. rewrite StrFacts.all_app, StrFacts.all_repeat by reflexivity.
  apply digits_aux_hex. reflexivity.
Qed.

Lemma hex16_number (n : Z) : 0 <= n -> number_of 16 (hex16 n) 0 = n.
Proof.
  intros Hn. unfold hex16, pad. rewrite number_of_zeros.
  apply digits_number; lia.
Qed.

Lemma get_field_id_range {utils : StreamProtoUtils} (f : FieldDescriptorProto) :
  0 <= get_field_id f < 2 ^ 64.
Proof. unfold get_field_id. apply Z.mod_pos_bound. lia. Qed.

(** ** Lines and markers *)

Lemma lines_aux_line (l rest cur : string) :
  no_newline l = true ->
  lines_aux (l ++ newline ++ rest) cur = (cur ++ l) :: lines_aux rest "".
Proof.
  revert cur. induction l as [|c l IH]; intros cur H.
  - simpl. now rewrite StrFacts.app_nil_r.
  - simpl in H. apply andb_true_iff in H as [Hc Hl].
    cbn [append lines_aux]. apply negb_true_iff in Hc. rewrite Hc.
    rewrite IH by exact Hl. now rewrite StrFacts.app_assoc.
Qed.

Lemma lines_unlines (ls : list string) :
  Forall (fun l => no_newline l = true) ls -> lines (unlines ls) = ls.
Proof.
  unfold lines. induction 1 as [|l ls Hl _ IH]; [reflexivity|].
  cbn [unlines]. now rewrite lines_aux_line, IH.
Qed.

Lemma strip_from_some (s pre rest : string) :
  strip_from s pre = Some rest -> s = pre ++ rest.
Proof.
  revert s. induction pre as [|p pre IH]; intros s H.
  - destruct s; simpl in H; injection H as H; now subst.
  - destruct s as [|c s]; simpl in H; [discriminate|].
    destruct (Ascii.eqb_spec c p) as [-> | _]; [|discriminate].
    simpl. f_equal. now apply IH.
Qed.

Lemma strip_from_app (pre rest : string) :
  strip_from (pre ++ rest) pre = Some rest.
Proof.
  induction pre as [|p pre IH]; simpl.
  - now destruct rest.
  - now rewrite Ascii.eqb_refl.
Qed.

Lemma stripPrefix_all (p : ascii -> bool) (s pre : string) :
  Str.all p s = true -> Str.all p (stripPrefix s pre) = true.
Proof.
  unfold stripPrefix. destruct (strip_from s pre) as [rest|] eqn:E; [|easy].
  apply strip_from_some in E. subst s. rewrite StrFacts.all_app.
  intros H. now apply andb_true_iff in H.
Qed.

Lemma chop_suffix_unfold (suf s : string) :
  chop_suffix suf s
  = if String.eqb s suf then Some ""
    else match s with
         | "" => None
         | String c s' => option_map (String c) (chop_suffix suf s')
         end.
Proof. destruct s; reflexivity. Qed.

Lemma chop_suffix_app (suf a : string) : chop_suffix suf (a ++ suf) = Some a.
Proof.
  induction a as [|c a IH]; rewrite chop_suffix_unfold.
  - simpl. now rewrite String.eqb_refl.
  - destruct (String.eqb_spec ((String c a) ++ suf) suf) as [E | _].
    + apply (f_equal String.length) in E.
      rewrite StrFacts.length_app in E. simpl in E. lia.
    + cbn [append]. now rewrite IH.
Qed.

Lemma drop_spaces_app (ind s : string) :
  spaces ind = true -> drop_spaces (ind ++ s) = drop_spaces s.
Proof.
  induction ind as [|c ind IH]; simpl; [reflexivity|].
  intros H. apply andb_true_iff in H as [-> H]. now apply IH.
Qed.

Lemma classify_indented (ind body : string) :
  spaces ind = true -> classify (ind ++ body) = classify body.
Proof. intros H. unfold classify. now rewrite drop_spaces_app. Qed.

Lemma classify_open (nm : string) :
  classify ("namespace " ++ nm ++ " {") = [Open nm].
Proof.
  unfold classify.
  replace (drop_spaces ("namespace " ++ nm ++ " {"))
    with ("namespace " ++ nm ++ " {") by reflexivity.
  now rewrite strip_from_app, chop_suffix_app.
Qed.

Lemma classify_close (nm : string) : classify ("} //" ++ nm) = [Close nm].
Proof.
  unfold classify.
  replace (drop_spaces ("} //" ++ nm)) with ("} //" ++ nm) by reflexivity.
  replace (strip_from ("} //" ++ nm) "namespace ") with (@None string)
    by reflexivity.
  now rewrite strip_from_app.
Qed.

Lemma no_newline_app (a b : string) :
  no_newline a = true -> no_newline b = true -> no_newline (a ++ b) = true.
Proof. unfold no_newline. intros Ha Hb. now rewrite StrFacts.all_app, Ha, Hb. Qed.

Lemma ident_no_newline (s : string) : ident s = true -> no_newline s = true.
Proof.
  apply StrFacts.all_impl. intros c Hc.
  destruct (Ascii.eqb_spec c (ascii_of_nat 10)) as [-> | Hn]; [discriminate|].
  unfold is_newline. now apply negb_true_iff, Ascii.eqb_neq.
Qed.

Lemma spaces_no_newline (s : string) : spaces s = true -> no_newline s = true.
Proof.
  apply StrFacts.all_impl. intros c Hc.
  apply Ascii.eqb_eq in Hc. now subst.
Qed.

Lemma hex_digits_no_newline (s : string) :
  Str.all is_hex_digit s = true -> no_newline s = true.
Proof.
  apply StrFacts.all_impl. intros c Hc.
  destruct (Ascii.eqb_spec c (ascii_of_nat 10)) as [-> | Hn]; [discriminate|].
  unfold is_newline. now apply negb_true_iff, Ascii.eqb_neq.
Qed.

Lemma digits_no_newline (b n : Z) : no_newline (digits b n) = true.
Proof. apply hex_digits_no_newline, digits_aux_hex. reflexivity. Qed.

Lemma decimal_no_newline (n : Z) : no_newline (decimal n) = true.
Proof.
  unfold decimal. destruct (n <? 0).
  - apply no_newline_app; [reflexivity | apply digits_no_newline].
  - apply digits_no_newline.
Qed.

Lemma hex16_no_newline (n : Z) : no_newline (hex16 n) = true.
Proof. apply hex_digits_no_newline, hex16_digits. Qed.

Lemma stripPrefix_no_newline (s pre : string) :
  ident s = true -> no_newline (stripPrefix s pre) = true.
Proof. intros H. now apply stripPrefix_all, ident_no_newline. Qed.

Create HintDb no_newline.

#[export] Hint Resolve ident_no_newline spaces_no_newline decimal_no_newline
  hex16_no_newline stripPrefix_no_newline : no_newline.

(** A concatenation holds no newline when none of its pieces does. *)
Ltac no_newlines :=
  repeat (apply no_newline_app;
          [ solve [ auto with no_newline | reflexivity ] | ]);
  solve [ auto with no_newline | reflexivity ].

(** An identifier followed by a comma is no marker. *)
Lemma classify_ident_comma (e : string) :
  ident e = true -> classify (e ++ ",") = [].
Proof.
  intros He.
  set (safe := fun c => is_ident_char c || Ascii.eqb c ",").
  assert (Hsafe : Str.all safe (e ++ ",") = true).
  { rewrite StrFacts.all_app. apply andb_true_iff. split; [|reflexivity].
    revert He. apply StrFacts.all_impl. intros c Hc. unfold safe.
    now rewrite Hc. }
  assert (Hdrop : drop_spaces (e ++ ",") = e ++ ",").
  { destruct e as [|c e]; [reflexivity|]. simpl in He |- *.
    destruct (Ascii.eqb_spec c " ") as [-> | _]; [discriminate | reflexivity]. }
  unfold classify. rewrite Hdrop.
  destruct (strip_from (e ++ ",") "namespace ") as [r|] eqn:E1.
  { apply strip_from_some in E1. rewrite E1, StrFacts.all_app in Hsafe.
    discriminate. }
  destruct (strip_from (e ++ ",") "} //") as [r|] eqn:E2; [|reflexivity].
  apply strip_from_some in E2. rewrite E2, StrFacts.all_app in Hsafe.
  discriminate.
Qed.

Lemma quiet_indented (ind body : string) :
  spaces ind = true -> no_newline body = true -> classify body = [] ->
  quiet (ind ++ body).
Proof.
  intros Hi Hn Hc. split.
  - apply no_newline_app; auto with no_newline.
  - now rewrite classify_indented.
Qed.

Lemma flat_map_quiet (ls : list string) :
  Forall quiet ls -> flat_map classify ls = [].
Proof.
  induction 1 as [|l ls [_ Hl] _ IH]; simpl; [reflexivity|].
  now rewrite Hl, IH.
Qed.

Lemma Forall_quiet_clean (ls : list string) :
  Forall quiet ls -> Forall (fun l => no_newline l = true) ls.
Proof. apply Forall_impl. now intros l [H _]. Qed.

Lemma Forall_flat_map {A B : Type} (P : B -> Prop) (g : A -> list B) (xs : list A) :
  (forall x, In x xs -> Forall P (g x)) -> Forall P (flat_map g xs).
Proof.
  induction xs as [|x xs IH]; intros H; simpl; [constructor|].
  apply Forall_app. split; [apply H; now left|].
  apply IH. intros y Hy. apply H. now right.
Qed.

Section Quiet.

Context {utils : StreamProtoUtils}.

Hypothesis INDENT_spaces : spaces INDENT = true.

Lemma name_ok_ident (s : string) : name_ok s = true -> ident s = true.
Proof. unfold name_ok. intros H. now apply andb_true_iff in H. Qed.

Lemma name_ok_constant (s : string) :
  name_ok s = true -> ident (make_constant_name s) = true.
Proof. unfold name_ok. intros H. now apply andb_true_iff in H. Qed.

Hint Resolve name_ok_ident name_ok_constant : no_newline.

Lemma quoted_entry_quiet (indent e : string) :
  spaces indent = true -> no_newline e = true -> quiet (quoted_entry indent e).
Proof.
  intros Hi He. unfold quoted_entry.
  apply quiet_indented; [exact Hi | no_newlines | ].
  rewrite classify_indented by exact INDENT_spaces. reflexivity.
Qed.

Lemma constant_entry_quiet (indent e : string) :
  spaces indent = true -> ident e = true -> quiet (constant_entry indent e).
Proof.
  intros Hi He. unfold constant_entry.
  apply quiet_indented; [exact Hi | no_newlines | ].
  rewrite classify_indented by exact INDENT_spaces.
  now apply classify_ident_comma.
Qed.

Lemma enum_lines_quiet (e : EnumDescriptorProto) (indent : string) :
  spaces indent = true -> enum_ok e = true -> Forall quiet (enum_lines e indent).
Proof.
  intros Hi He. unfold enum_ok in He. apply andb_true_iff in He as [Hn Hv].
  rewrite forallb_forall in Hv.
  unfold enum_lines, enum_names_table, enum_values_table.
  repeat first [ apply Forall_app; split | apply Forall_cons | apply Forall_nil ].
  - apply quiet_indented; [exact Hi | no_newlines | reflexivity].
  - rewrite Forall_map. apply Forall_forall. intros v Hin.
    pose proof (Hv v Hin). unfold enum_constant_line.
    apply quiet_indented; [exact Hi | no_newlines | reflexivity].
  - apply quiet_indented; [exact Hi | no_newlines | reflexivity].
  - apply quiet_indented; [exact Hi | no_newlines | reflexivity].
  - rewrite !Forall_map. apply Forall_forall. intros v Hin.
    pose proof (Hv v Hin).
    apply quoted_entry_quiet; auto with no_newline.
  - apply quiet_indented; [exact Hi | no_newlines | reflexivity].
  - apply quiet_indented; [exact Hi | no_newlines | reflexivity].
  - rewrite !Forall_map. apply Forall_forall. intros v Hin.
    pose proof (Hv v Hin).
    apply constant_entry_quiet; auto with no_newline.
  - apply quiet_indented; [exact Hi | no_newlines | reflexivity].
  - split; reflexivity.
Qed.

Lemma field_lines_quiet (f : FieldDescriptorProto) (indent : string) :
  spaces indent = true -> field_ok f = true -> Forall quiet (field_lines f indent).
Proof.
  intros Hi Hf. unfold field_ok in Hf. apply andb_true_iff in Hf as [Hn Ht].
  unfold field_lines, field_comment_line.
  repeat apply Forall_cons; [ | | split; reflexivity | apply Forall_nil].
  - apply quiet_indented; [exact Hi | | reflexivity].
    destruct (field_label f), (packed (field_options f)); no_newlines.
  - apply quiet_indented; [exact Hi | no_newlines | reflexivity].
Qed.

Lemma field_table_lines_quiet (fs : list FieldDescriptorProto) (indent : string) :
  spaces indent = true -> forallb field_ok fs = true ->
  Forall quiet (field_table_lines fs indent).
Proof.
  intros Hi Hfs. rewrite forallb_forall in Hfs. unfold field_table_lines.
  assert (Hname : forall f, In f fs -> name_ok (field_name f) = true).
  { intros f Hin. specialize (Hfs f Hin). unfold field_ok in Hfs.
    now apply andb_true_iff in Hfs. }
  repeat first [ apply Forall_app; split | apply Forall_cons | apply Forall_nil ].
  - apply quiet_indented; [exact Hi | no_newlines | reflexivity].
  - apply quiet_indented; [exact Hi | no_newlines | reflexivity].
  - rewrite Forall_map. apply Forall_forall. intros f Hin.
    pose proof (Hname f Hin).
    apply quoted_entry_quiet; auto with no_newline.
  - apply quiet_indented; [exact Hi | no_newlines | reflexivity].
  - apply quiet_indented; [exact Hi | no_newlines | reflexivity].
  - rewrite Forall_map. apply Forall_forall. intros f Hin.
    pose proof (Hname f Hin).
    apply constant_entry_quiet; auto with no_newline.
  - apply quiet_indented; [exact Hi | no_newlines | reflexivity].
  - split; reflexivity.
Qed.

End Quiet.

(** ** The scopes of a rendered message *)

Lemma scope_nested_ind (P : scope -> Prop) :
  (forall n inner, (forall t, In t inner -> P t) -> P (Scope n inner)) ->
  forall t, P t.
Proof.
  intros H. fix IH 1. intros [n inner]. apply H.
  induction inner as [|x inner IHinner]; intros t Ht.
  - destruct Ht.
  - destruct Ht as [<- | Ht]; [apply IH | now apply IHinner].
Qed.

Lemma flat_map_flat_map {A B C : Type} (f : B -> list C) (g : A -> list B)
    (h : A -> list C) (xs : list A) :
  (forall x, In x xs -> flat_map f (g x) = h x) ->
  flat_map f (flat_map g xs) = flat_map h xs.
Proof.
  induction xs as [|x xs IH]; intros H; simpl; [reflexivity|].
  rewrite flat_map_app, H by now left.
  f_equal. apply IH. intros y Hy. apply H. now right.
Qed.

Lemma flat_map_nil {A B : Type} (g : A -> list B) (xs : list A) :
  (forall x, In x xs -> g x = []) -> flat_map g xs = [].
Proof.
  induction xs as [|x xs IH]; intros H; simpl; [reflexivity|].
  rewrite H by now left. apply IH. intros y Hy. apply H. now right.
Qed.

Lemma flat_map_of_map {A B C : Type} (f : B -> list C) (g : A -> B) (xs : list A) :
  flat_map f (map g xs) = flat_map (fun x => f (g x)) xs.
Proof. induction xs as [|x xs IH]; simpl; [reflexivity | now rewrite IH]. Qed.

(** The markers of a tree are read back as the tree. *)
Lemma parse_scopes_tree (t : scope) :
  forall rest stack done,
  parse_scopes (markers_of t ++ rest) stack done
  = parse_scopes rest stack (t :: done).
Proof.
  induction t as [n inner IH] using scope_nested_ind.
  intros rest stack done. cbn [markers_of].
  rewrite <- app_comm_cons. cbn [parse_scopes]. rewrite <- app_assoc.
  assert (Hinner : forall rest stack done,
            parse_scopes (flat_map markers_of inner ++ rest) stack done
            = parse_scopes rest stack (rev inner ++ done)).
  { clear rest stack done.
    induction inner as [|x inner IHl]; intros rest stack done; [reflexivity|].
    cbn [flat_map]. rewrite <- app_assoc, IH by now left.
    rewrite IHl by (intros t Ht; apply IH; now right).
    cbn [rev]. now rewrite <- app_assoc. }
  rewrite Hinner. cbn [app parse_scopes].
  now rewrite String.eqb_refl, app_nil_r, rev_involutive.
Qed.

Lemma spaces_app (a b : string) :
  spaces a = true -> spaces b = true -> spaces (a ++ b) = true.
Proof. unfold spaces. intros Ha Hb. now rewrite StrFacts.all_app, Ha, Hb. Qed.

Section Scopes.

Context {utils : StreamProtoUtils}.

Hypothesis INDENT_spaces : spaces INDENT = true.

Lemma message_lines_markers (m : DescriptorProto) :
  forall indent, spaces indent = true -> message_ok m = true ->
  Forall (fun l => no_newline l = true) (message_lines m indent)
  /\ flat_map classify (message_lines m indent) = markers_of (scope_of m).
Proof.
  induction m as [m IH] using DescriptorProto_nested_ind.
  intros indent Hi Hm. destruct m as [nm es ns fs].
  cbn [message_ok message_name enum_type nested_type field] in Hm.
  cbn [nested_type] in IH.
  rewrite !andb_true_iff in Hm. destruct Hm as [[[Hnm Hes] Hns] Hfs].
  rewrite forallb_forall in Hes, Hns.
  assert (Hii : spaces (indent ++ INDENT) = true).
  { now apply spaces_app. }
  cbn [message_lines scope_of markers_of message_name enum_type nested_type field].
  assert (Henums : Forall quiet
            (flat_map (fun e => enum_lines e (indent ++ INDENT)) es)).
  { apply Forall_flat_map. intros e He. apply enum_lines_quiet; auto. }
  assert (Hfields : Forall quiet
            (flat_map (fun f => field_lines f (indent ++ INDENT)) fs)).
  { apply Forall_flat_map. intros f Hf. apply field_lines_quiet; auto.
    rewrite forallb_forall in Hfs. auto. }
  pose proof (field_table_lines_quiet INDENT_spaces fs (indent ++ INDENT) Hii Hfs)
    as Htables.
  split.
  - cbn [app].
    apply Forall_cons; [no_newlines|]. apply Forall_cons; [no_newlines|].
    apply Forall_app; split; [now apply Forall_quiet_clean|].
    apply Forall_app; split.
    { apply Forall_flat_map. intros n Hn. now apply IH; auto. }
    apply Forall_app; split; [now apply Forall_quiet_clean|].
    apply Forall_app; split; [now apply Forall_quiet_clean|].
    apply Forall_cons; [no_newlines|]. apply Forall_cons; [reflexivity|].
    apply Forall_nil.
  - rewrite !flat_map_app.
    rewrite (flat_map_quiet _ Henums), (flat_map_quiet _ Hfields),
            (flat_map_quiet _ Htables).
    rewrite (flat_map_flat_map classify _ (fun n => markers_of (scope_of n)))
      by (intros n Hn; now apply IH; auto).
    rewrite flat_map_of_map.
    cbn [flat_map]. rewrite !(classify_indented indent) by exact Hi.
    rewrite classify_open, classify_close.
    replace (classify ("// message " ++ nm)) with (@nil marker) by reflexivity.
    replace (classify "") with (@nil marker) by reflexivity.
    reflexivity.
Qed.

End Scopes.

(** * The emitters and the run *)

(** ** Field ids *)

(** On descriptors whose packed option is only set on repeated fields, the
    count says whether the field is repeated and whether it is packed, and
    nothing else. *)
Lemma field_count_status (f1 f2 : FieldDescriptorProto) :
  packed_only_repeated f1 -> packed_only_repeated f2 ->
  (field_count f1 = field_count f2
   <-> repetition_status f1 = repetition_status f2).
Proof.
  unfold packed_only_repeated, field_count, repetition_status, is_repeated.
  intros H1 H2.
  destruct (packed (field_options f1)), (packed (field_options f2)),
    (field_label f1), (field_label f2);
    try (specialize (H1 eq_refl); discriminate H1);
    try (specialize (H2 eq_refl); discriminate H2);
    split; intros H; try discriminate H; reflexivity.
Qed.

(** A packed field has the count of a packed field whatever its label. *)
Lemma field_count_packed (f : FieldDescriptorProto) :
  packed (field_options f) = true -> field_count f = COUNT_PACKED.
Proof. unfold field_count. now intros ->. Qed.




(** ** Enum tables *)

Lemma stripPrefix_spec (s pre : string) :
  s = pre ++ stripPrefix s pre
  \/ (stripPrefix s pre = s /\ forall rest, s <> pre ++ rest).
Proof.
  unfold stripPrefix. destruct (strip_from s pre) as [rest|] eqn:E.
  - left. now apply strip_from_some.
  - right. split; [reflexivity|]. intros rest ->.
    rewrite strip_from_app in E. discriminate.
Qed.

(** C3. For an enum of [N] values [write_enum] renders the count [N], a
    table of [N] display names and a table of [N] constant names.  Entry [i]
    of the first is the name of value [i] without the prefix (the constant
    name of the enum and an underscore) when the name starts with it, the
    name itself otherwise; entry [i] of the second is the constant name of
    value [i]. *)
Theorem write_enum_tables {utils : StreamProtoUtils}
    (s : string) (c : ascii) (enu : EnumDescriptorProto) (indent : string) :
  let N := List.length (enum_value enu) in
  let name := make_constant_name (enum_name enu) in
  let prefix := name ++ "_" in
  exists names values : list string,
    List.length names = N /\ List.length values = N
    /\ (forall i v, nth_error (enum_value enu) i = Some v ->
        exists e,
          nth_error names i = Some e
          /\ (value_name v = prefix ++ e
              \/ (e = value_name v /\ forall rest, value_name v <> prefix ++ rest))
          /\ nth_error values i = Some (make_constant_name (value_name v)))
    /\ str (write_enum (plain s c) enu indent)
       = s ++ unlines
           ([indent ++ "// enum " ++ enum_name enu]
            ++ map (enum_constant_line indent) (enum_value enu)
            ++ [indent ++ "static const int _ENUM_" ++ name ++ "_COUNT = "
                       ++ decimal (Z.of_nat N) ++ ";";
                indent ++ "static const char* _ENUM_" ++ name ++ "_NAMES["
                       ++ decimal (Z.of_nat N) ++ "] = {"]
            ++ map (quoted_entry indent) names
            ++ [indent ++ "};";
                indent ++ "static const int _ENUM_" ++ name ++ "_VALUES["
                       ++ decimal (Z.of_nat N) ++ "] = {"]
            ++ map (constant_entry indent) values
            ++ [indent ++ "};"; ""]).
Proof.
  intros N name prefix.
  exists (enum_names_table enu), (enum_values_table enu).
  unfold enum_names_table, enum_values_table.
  rewrite !length_map. repeat split.
  - intros i v Hv.
    exists (stripPrefix (value_name v) prefix). repeat split.
    + now rewrite nth_error_map, Hv.
    + apply stripPrefix_spec.
    + now rewrite nth_error_map, Hv.
  - now rewrite write_enum_plain.
Qed.

(** ** Field tables *)

(** C4. For a message of [N] fields [write_message] renders the count [N],
    a table of [N] field names and a table of [N] field ids; entry [i] of
    the first is the name of field [i] as declared, entry [i] of the second
    the constant name of field [i]. *)
Theorem write_message_tables {utils : StreamProtoUtils}
    (s : string) (c : ascii) (m : DescriptorProto) (indent : string) :
  let N := List.length (field m) in
  let indented := indent ++ INDENT in
  exists names ids : list string,
    List.length names = N /\ List.length ids = N
    /\ (forall i f, nth_error (field m) i = Some f ->
        nth_error names i = Some (field_name f)
        /\ nth_error ids i = Some (make_constant_name (field_name f)))
    /\ str (write_message (plain s c) m indent)
       = s ++ unlines
           ([indent ++ "// message " ++ message_name m;
             indent ++ "namespace " ++ message_name m ++ " {"]
            ++ flat_map (fun e => enum_lines e indented) (enum_type m)
            ++ flat_map (fun n => message_lines n indented) (nested_type m)
            ++ flat_map (fun f => field_lines f indented) (field m)
            ++ [indented ++ "static const int _FIELD_COUNT = "
                         ++ decimal (Z.of_nat N) ++ ";";
                indented ++ "static const char* _FIELD_NAMES["
                         ++ decimal (Z.of_nat N) ++ "] = {"]
            ++ map (quoted_entry indented) names
            ++ [indented ++ "};";
                indented ++ "static const uint64_t _FIELD_IDS["
                         ++ decimal (Z.of_nat N) ++ "] = {"]
            ++ map (constant_entry indented) ids
            ++ [indented ++ "};"; ""]
            ++ [indent ++ "} //" ++ message_name m; ""]).
Proof.
  intros N indented.
  exists (map field_name (field m)),
         (map (fun f => make_constant_name (field_name f)) (field m)).
  rewrite !length_map. repeat split.
  - now rewrite nth_error_map, H.
  - now rewrite nth_error_map, H.
  - destruct (write_message_plain m s c indent) as [c' ->].
    cbn [str]. do 2 f_equal. destruct m as [nm es ns fs].
    cbn [message_lines message_name enum_type nested_type field].
    unfold field_table_lines. rewrite !map_map, <- !app_assoc. reflexivity.
Qed.

(** ** Fields *)

(** C9. The comment line of a field ends in [ [packed=true]] before its
    semicolon exactly when the packed option of the field is set to true,
    whatever the label of the field; with the option unset or false nothing
    stands between the number and the semicolon. *)
Theorem write_field_packed_comment {utils : StreamProtoUtils}
    (s : string) (c : ascii) (f : FieldDescriptorProto) (indent : string) :
  let label :=
    match field_label f with
    | LABEL_OPTIONAL => "optional "
    | LABEL_REPEATED => "repeated "
    | LABEL_REQUIRED => ""
    end in
  let annotation :=
    match packed_opt (field_options f) with
    | Some true => " [packed=true]"
    | Some false | None => ""
    end in
  exists rest,
    str (write_field (plain s c) f indent)
    = s ++ indent ++ "// " ++ label ++ get_proto_type f ++ " " ++ field_name f
        ++ " = " ++ decimal (field_number f) ++ annotation ++ ";" ++ newline
        ++ rest.
Proof.
  intros label annotation. rewrite write_field_plain. cbn [str].
  unfold field_lines. rewrite unlines_cons.
  eexists. f_equal. unfold field_comment_line, label, annotation, packed.
  rewrite !StrFacts.app_assoc.
  destruct (field_label f), (packed_opt (field_options f)) as [[|]|];
    reflexivity.
Qed.

(** C5, as the code has it.  The field id is rendered as sixteen
    hexadecimal digits, zero-padded, that read back as the id, followed by
    the suffix [LL]: the suffix of a [long long], not of an unsigned
    literal; the constant is declared [uint64_t]. *)
Theorem write_field_constant {utils : StreamProtoUtils}
    (s : string) (c : ascii) (f : FieldDescriptorProto) (indent : string) :
  exists h : string,
    String.length h = 16%nat
    /\ Str.all is_hex_digit h = true
    /\ number_of 16 h 0 = get_field_id f
    /\ str (write_field (plain s c) f indent)
       = s ++ field_comment_line f indent ++ newline
           ++ indent ++ "const uint64_t " ++ make_constant_name (field_name f)
           ++ " = 0x" ++ h ++ "LL" ++ ";" ++ newline
           ++ newline
    /\ suffix_long_long "LL" = true
    /\ suffix_unsigned "LL" = false.
Proof.
  pose proof (get_field_id_range f) as Hr.
  exists (hex16 (get_field_id f)).
  split; [|split; [|split; [|split; [|split; reflexivity]]]].
  - now apply hex16_length.
  - apply hex16_digits.
  - apply hex16_number. lia.
  - rewrite write_field_plain. cbn [str]. f_equal. unfold field_lines.
    flatten_text. reflexivity.
Qed.

(** C5, as stated, fails on [required int32 sides = 1]: no suffix that
    marks the literal unsigned follows its sixteen digits. *)
Lemma write_field_suffix_not_unsigned :
  ~ exists h sfx : string,
      String.length h = 16%nat
      /\ suffix_unsigned sfx = true
      /\ str (@write_field Sample.utils new_stringstream Sample.sides "")
         = @field_comment_line Sample.utils Sample.sides "" ++ newline
             ++ "const uint64_t SIDES = 0x" ++ h ++ sfx ++ ";" ++ newline
             ++ newline.
Proof.
  intros (h & sfx & Hh & Hu & H).
  assert (E : str (@write_field Sample.utils new_stringstream Sample.sides "")
              = @field_comment_line Sample.utils Sample.sides "" ++ newline
                  ++ "const uint64_t SIDES = 0x" ++ "0000010500000001"
                  ++ "LL" ++ ";" ++ newline ++ newline) by reflexivity.
  rewrite E in H.
  do 3 apply StrFacts.app_inv_head in H.
  apply StrFacts.app_inj_length in H as [_ H]; [|now rewrite Hh].
  assert (Hs : String.length sfx = 2%nat).
  { apply (f_equal String.length) in H.
    rewrite !StrFacts.length_app in H. simpl in H. lia. }
  apply StrFacts.app_inj_length in H as [H _]; [|now rewrite Hs].
  subst sfx. discriminate.
Qed.

(** C10, as the code has it.  After the field id the flags of the stream,
    and with them the base, are those from before, and the width is zero
    again.  A field, an enum and a message rendered on a stream of width zero
    and base ten append their lines with every other number in it (values of
    enums, field numbers, counts, sizes of tables) written by [decimal], and
    so is the document of a file, which starts on a new stream. *)
Theorem write_field_keeps_decimal {utils : StreamProtoUtils}
    (s : string) (c : ascii) (indent : string) :
  (forall f,
     flags (write_field (plain s c) f indent) = flags (plain s c)
     /\ width (write_field (plain s c) f indent) = 0%nat
     /\ str (write_field (plain s c) f indent)
        = s ++ unlines (field_lines f indent))
  /\ (forall enu,
        write_enum (plain s c) enu indent
        = plain (s ++ unlines (enum_lines enu indent)) c)
  /\ (forall m, exists c',
        write_message (plain s c) m indent
        = plain (s ++ unlines (message_lines m indent)) c')
  /\ (forall p r fd,
        file (write_header_file p r fd)
        = (file r ++ [ {| name := make_filename fd;
                          content := unlines (file_lines fd) |} ])%list).
Proof.
  split; [|split; [|split]].
  - intros f. now rewrite write_field_plain.
  - intros enu. apply write_enum_plain.
  - intros m. apply write_message_plain.
  - apply write_header_file_plain.
Qed.

(** C10, as stated, fails on [required int32 sides = 1]: the fill
    character of the stream is not the one from before the field. *)
Lemma write_field_changes_fill :
  fill (@write_field Sample.utils new_stringstream Sample.sides "")
  <> fill new_stringstream.
Proof. discriminate. Qed.

(** ** Messages *)

Lemma unlines_flat_map {A : Type} (g : A -> list string) (xs : list A) :
  unlines (flat_map g xs) = Str.concat (map (fun x => unlines (g x)) xs).
Proof.
  induction xs as [|x xs IH]; simpl; [reflexivity|].
  now rewrite unlines_app, IH.
Qed.

Lemma str_write_enum {utils : StreamProtoUtils} s c enu indent :
  str (write_enum (plain s c) enu indent) = s ++ unlines (enum_lines enu indent).
Proof. now rewrite write_enum_plain. Qed.

Lemma str_write_field {utils : StreamProtoUtils} s c f indent :
  str (write_field (plain s c) f indent) = s ++ unlines (field_lines f indent).
Proof. now rewrite write_field_plain. Qed.

Lemma str_write_message {utils : StreamProtoUtils} s c m indent :
  str (write_message (plain s c) m indent)
  = s ++ unlines (message_lines m indent).
Proof. now destruct (write_message_plain m s c indent) as [c' ->]. Qed.

(** C2. The text that [write_message] appends for a message is, in this
    order: the comment and the line that opens the scope of the message, the
    nested enums, the nested messages, the fields, the two tables, the line
    that closes the scope.  Read back from the text, the markers of scopes
    are those of the tree of messages: one scope a message, under the name
    of the message, nested as the messages are and in their order, each one
    closed.  Names are identifiers and indentation is made of spaces. *)
Theorem write_message_scopes {utils : StreamProtoUtils}
    (m : DescriptorProto) (indent : string) :
  spaces INDENT = true -> spaces indent = true -> message_ok m = true ->
  let text := str (write_message new_stringstream m indent) in
  let indented := indent ++ INDENT in
  (forall s c, str (write_message (plain s c) m indent) = s ++ text)
  /\ text
     = (indent ++ "// message " ++ message_name m ++ newline)
       ++ (indent ++ "namespace " ++ message_name m ++ " {" ++ newline)
       ++ Str.concat (map (fun e => str (write_enum new_stringstream e indented))
                          (enum_type m))
       ++ Str.concat (map (fun n => str (write_message new_stringstream n indented))
                          (nested_type m))
       ++ Str.concat (map (fun f => str (write_field new_stringstream f indented))
                          (field m))
       ++ unlines (field_table_lines (field m) indented)
       ++ (indent ++ "} //" ++ message_name m ++ newline)
       ++ newline
  /\ scope_markers text = markers_of (scope_of m)
  /\ parse_scopes (scope_markers text) [] [] = Some [scope_of m].
Proof.
  intros HI Hi Hm text indented.
  assert (Htext : text = unlines (message_lines m indent)).
  { unfold text. change new_stringstream with (plain "" " ").
    now rewrite str_write_message. }
  destruct (message_lines_markers HI m indent Hi Hm) as [Hclean Hmarkers].
  assert (Hscopes : scope_markers text = markers_of (scope_of m)).
  { unfold scope_markers. now rewrite Htext, lines_unlines. }
  split; [|split; [|split]].
  - intros s c. now rewrite str_write_message, Htext.
  - rewrite Htext. change new_stringstream with (plain "" " ").
    destruct m as [nm es ns fs].
    cbn [message_lines message_name enum_type nested_type field].
    fold indented. flatten_text. rewrite !unlines_flat_map.
    rewrite (map_ext (fun e => str (write_enum (plain "" " ") e indented))
                     (fun e => unlines (enum_lines e indented)))
      by (intros e; exact (str_write_enum "" " " e indented)).
    rewrite (map_ext (fun n => str (write_message (plain "" " ") n indented))
                     (fun n => unlines (message_lines n indented)))
      by (intros n; exact (str_write_message "" " " n indented)).
    rewrite (map_ext (fun f => str (write_field (plain "" " ") f indented))
                     (fun f => unlines (field_lines f indented)))
      by (intros f; exact (str_write_field "" " " f indented)).
    reflexivity.
  - exact Hscopes.
  - rewrite Hscopes, <- (app_nil_r (markers_of (scope_of m))).
    now rewrite parse_scopes_tree.
Qed.

Lemma write_message_scopes_witness :
  let text := str (@write_message Sample.utils new_stringstream Sample.shape "") in
  scope_markers text
  = [Open "Shape"; Open "Point"; Close "Point"; Close "Shape"]
  /\ parse_scopes (scope_markers text) [] []
     = Some [Scope "Shape" [Scope "Point" []]].
Proof.
  pose proof (@write_message_scopes Sample.utils Sample.shape ""
                eq_refl eq_refl eq_refl) as H.
  cbv zeta in H. destruct H as (_ & _ & H1 & H2).
  split; [exact H1 | exact H2].
Defined.

(** ** The run *)

Section Run.

Context {utils : StreamProtoUtils}.

Lemma write_header_file_file (p : string) (r : CodeGeneratorResponse)
    (fd : FileDescriptorProto) :
  file (write_header_file p r fd)
  = (file r ++ file (write_header_file p empty_response fd))%list.
Proof.
  unfold write_header_file.
  destruct (Str.find p "experimental_allow_proto3_optional"); reflexivity.
Qed.

Lemma write_header_file_features (p : string) (r : CodeGeneratorResponse)
    (fd : FileDescriptorProto) :
  supported_features (write_header_file p r fd)
  = if asks_proto3_optional p then Some FEATURE_PROTO3_OPTIONAL
    else supported_features r.
Proof.
  unfold write_header_file, asks_proto3_optional.
  destruct (Str.find p "experimental_allow_proto3_optional"); reflexivity.
Qed.

Lemma build_files_file_from (request : CodeGeneratorRequest)
    (fds : list FileDescriptorProto) (r : CodeGeneratorResponse) :
  file (fold_left
          (fun response file_descriptor =>
             if should_generate_for_file request (file_name file_descriptor)
             then write_header_file (parameter request) response file_descriptor
             else response)
          fds r)
  = (file r
     ++ flat_map (fun fd => file (write_header_file (parameter request)
                                    empty_response fd))
                 (filter (eligible request) fds))%list.
Proof.
  revert r. induction fds as [|fd fds IH]; intros r; simpl.
  - now rewrite app_nil_r.
  - rewrite IH. unfold eligible.
    destruct (should_generate_for_file request (file_name fd)); [|reflexivity].
    rewrite write_header_file_file. simpl. now rewrite <- app_assoc.
Qed.

Lemma build_files_features_from (request : CodeGeneratorRequest)
    (fds : list FileDescriptorProto) (r : CodeGeneratorResponse) :
  supported_features (fold_left
          (fun response file_descriptor =>
             if should_generate_for_file request (file_name file_descriptor)
             then write_header_file (parameter request) response file_descriptor
             else response)
          fds r)
  = if asks_proto3_optional (parameter request)
       && existsb (eligible request) fds
    then Some FEATURE_PROTO3_OPTIONAL
    else supported_features r.
Proof.
  revert r. induction fds as [|fd fds IH]; intros r; cbn [fold_left existsb].
  - now rewrite andb_false_r.
  - rewrite IH. unfold eligible at 2.
    destruct (should_generate_for_file request (file_name fd));
      cbn [orb]; [|reflexivity].
    rewrite write_header_file_features.
    destruct (asks_proto3_optional (parameter request)); cbn [andb];
      [|reflexivity].
    now destruct (existsb _ fds).
Qed.

End Run.

(** C6. With an error in the log when the files have been built, [main]
    writes nothing to the output channel, prints the messages of the log to
    the diagnostic channel and returns 1.  With an empty log it writes the
    response, which holds the document of every file the request asks for,
    in the order of the request, and returns 0. *)
Theorem main_error_gate {utils : StreamProtoUtils}
    (request : CodeGeneratorRequest) (w : World) :
  (HasErrors (ERRORS w) = true ->
   main request w
   = (1, {| ERRORS := ERRORS w; cout := cout w;
            cerr := cerr w ++ Str.concat (map (fun msg => msg ++ newline)
                                              (ERRORS w)) |}))
  /\ (HasErrors (ERRORS w) = false ->
      main request w
      = (0, {| ERRORS := ERRORS w;
               cout := cout w ++ SerializeToString (build_files request);
               cerr := cerr w |})
      /\ file (build_files request)
         = flat_map (fun fd => file (write_header_file (parameter request)
                                       empty_response fd))
                    (filter (eligible request) (proto_file request))).
Proof.
  unfold main. split; intros H; rewrite H; [reflexivity|].
  split; [reflexivity|].
  exact (build_files_file_from request (proto_file request) empty_response).
Qed.

(** C7, as the code has it.  The response advertises the feature exactly
    when the parameter of the request contains the token and the request
    asks for at least one of its files; otherwise the flag is unset. *)
Theorem supported_features_flag {utils : StreamProtoUtils}
    (request : CodeGeneratorRequest) :
  supported_features (build_files request)
  = if asks_proto3_optional (parameter request)
       && existsb (eligible request) (proto_file request)
    then Some FEATURE_PROTO3_OPTIONAL
    else None.
Proof.
  exact (build_files_features_from request (proto_file request) empty_response).
Qed.

(** C7, as stated, fails on a request whose parameter is the token and
    which asks for no file: the flag stays unset. *)
Lemma supported_features_unset_without_file :
  ~ (asks_proto3_optional (parameter Sample.request_optional) = true ->
     supported_features (@build_files Sample.utils Sample.request_optional)
     = Some FEATURE_PROTO3_OPTIONAL).
Proof. intros H. specialize (H eq_refl). discriminate. Qed.

(** C8. When the request asks for none of its files, a run from the start
    of the process returns 0, leaves the error log empty and writes a
    response without documents. *)
Theorem main_no_eligible_file {utils : StreamProtoUtils}
    (request : CodeGeneratorRequest) :
  (forall fd, In fd (proto_file request) ->
     should_generate_for_file request (file_name fd) = false) ->
  build_files request = empty_response
  /\ main request process_start
     = (0, {| ERRORS := [];
              cout := SerializeToString empty_response;
              cerr := "" |}).
Proof.
  intros H.
  assert (Hb : build_files request = empty_response).
  { unfold build_files. generalize empty_response.
    induction (proto_file request) as [|fd fds IH]; intros r; simpl;
      [reflexivity|].
    rewrite (H fd) by now left.
    apply IH. intros fd' Hfd'. apply H. now right. }
  split; [exact Hb|]. unfold main. now rewrite Hb.
Qed.

Lemma main_no_eligible_file_witness :
  @build_files Sample.utils Sample.request_optional = empty_response
  /\ @main Sample.utils Sample.request_optional process_start
     = (0, {| ERRORS := []; cout := ""; cerr := "" |}).
Proof.
  apply (@main_no_eligible_file Sample.utils Sample.request_optional).
  intros fd _. reflexivity.
Defined.

(** ** Runs on the sample *)

Example decimal_negative : decimal (-120) = "-120".
Proof. reflexivity. Qed.

Example hex16_small : hex16 255 = "00000000000000ff".
Proof. reflexivity. Qed.

Example sample_field_id :
  @get_field_id Sample.utils Sample.radius = 0x50500000002.
Proof. reflexivity. Qed.

Example sample_field_lines :
  lines (str (@write_field Sample.utils new_stringstream Sample.radius ""))
  = ["// optional int32 cornerRadius = 2 [packed=true];";
     "const uint64_t CORNER_RADIUS = 0x0000050500000002LL;";
     ""].
Proof. reflexivity. Qed.

Example sample_enum_lines :
  lines (str (@write_enum Sample.utils new_stringstream Sample.color ""))
  = ["// enum Color";
     "const int RED = 0;";
     "const int COLOR_GREEN = 1;";
     "static const int _ENUM_COLOR_COUNT = 2;";
     "static const char* _ENUM_COLOR_NAMES[2] = {";
     "    " ++ quote ++ "RED" ++ quote ++ ",";
     "    " ++ quote ++ "GREEN" ++ quote ++ ",";
     "};";
     "static const int _ENUM_COLOR_VALUES[2] = {";
     "    RED,";
     "    COLOR_GREEN,";
     "};";
     ""].
Proof. reflexivity. Qed.

Example sample_message_lines :
  lines (str (@write_message Sample.utils new_stringstream Sample.point ""))
  = ["// message Point";
     "namespace Point {";
     "    // int32 sides = 1;";
     "    const uint64_t SIDES = 0x0000010500000001LL;";
     "";
     "    static const int _FIELD_COUNT = 1;";
     "    static const char* _FIELD_NAMES[1] = {";
     "        " ++ quote ++ "sides" ++ quote ++ ",";
     "    };";
     "    static const uint64_t _FIELD_IDS[1] = {";
     "        SIDES,";
     "    };";
     "";
     "} //Point";
     ""].
Proof. reflexivity. Qed.

(** A run with a message in the error log writes no document. *)
Example sample_run_with_error :
  @main Sample.utils Sample.request
    {| ERRORS := ["bad descriptor"]; cout := ""; cerr := "" |}
  = (1, {| ERRORS := ["bad descriptor"]; cout := "";
           cerr := "bad descriptor" ++ newline |}).
Proof. reflexivity. Qed.

(** A run without one writes the document of the file it was asked for. *)
Example sample_run :
  let (status, w) := @main Sample.utils Sample.request process_start in
  status = 0
  /\ ERRORS w = [] /\ cerr w = ""
  /\ scope_markers (cout w)
     = [Open "a"; Open "b"; Open "Shape"; Open "Point"; Close "Point";
        Close "Shape"; Close " b"; Close " a"].
Proof. vm_compute. repeat split. Qed.

(** The token anywhere in the parameter, and a file to write, set the flag. *)
Example sample_flag :
  supported_features
    (@build_files Sample.utils
       {| file_to_generate := ["a/shapes.proto"];
          parameter := "lite,experimental_allow_proto3_optional";
          proto_file := [Sample.shapes_proto] |})
  = Some FEATURE_PROTO3_OPTIONAL
  /\ asks_proto3_optional "experimental_allow_proto3" = false.
Proof. split; reflexivity. Qed.

(** * Further properties of the emitters *)

(** ** The emitters on a stream of any width, base and fill character *)

Lemma extends_refl t : extends t t.
Proof. exists "". now rewrite StrFacts.app_nil_r. Qed.

Lemma extends_trans t1 t2 t3 : extends t1 t2 -> extends t2 t3 -> extends t1 t3.
Proof.
  intros [a Ha] [b Hb]. exists (a ++ b).
  now rewrite Hb, Ha, StrFacts.app_assoc.
Qed.

Lemma grows_refl t : grows t t.
Proof. split; [reflexivity | apply extends_refl]. Qed.

Lemma grows_trans t1 t2 t3 : grows t1 t2 -> grows t2 t3 -> grows t1 t3.
Proof.
  intros [F1 E1] [F2 E2]. split; [congruence | eapply extends_trans; eauto].
Qed.

Lemma keeps_refl t : keeps t t.
Proof. split; [apply grows_refl | reflexivity]. Qed.

Lemma keeps_trans t1 t2 t3 : keeps t1 t2 -> keeps t2 t3 -> keeps t1 t3.
Proof.
  intros [G1 F1] [G2 F2]. split; [eapply grows_trans; eauto | congruence].
Qed.

(** An insertion of text, of a character, of a number or of [endl] keeps
    the flags and the fill character and appends. *)
Lemma keeps_formatted t s : keeps t (formatted t s).
Proof. repeat split. now eexists. Qed.

Lemma keeps_text t (s : string) : keeps t (t << s).
Proof. apply keeps_formatted. Qed.

Lemma keeps_int t n : keeps t (t << Int n).
Proof. apply keeps_formatted. Qed.

Lemma keeps_endl t : keeps t (t << endl).
Proof. repeat split. now eexists. Qed.

Lemma keeps_for_each {A : Type} (body : stringstream -> A -> stringstream)
    (xs : list A) :
  (forall t x, keeps t (body t x)) -> forall t, keeps t (for_each xs t body).
Proof.
  intros Hbody. unfold for_each.
  induction xs as [|x xs IH]; intros t; simpl; [apply keeps_refl|].
  eapply keeps_trans; [apply Hbody | apply IH].
Qed.

Lemma grows_for_each {A : Type} (body : stringstream -> A -> stringstream)
    (xs : list A) :
  (forall t x, In x xs -> grows t (body t x)) ->
  forall t, grows t (for_each xs t body).
Proof.
  unfold for_each.
  induction xs as [|x xs IH]; intros Hbody t; simpl; [apply grows_refl|].
  eapply grows_trans; [apply Hbody; now left|].
  apply IH. intros t' y Hy. apply Hbody. now right.
Qed.

(** The width after a loop is zero when it is so before the loop and after
    every run of its body. *)
Lemma width_for_each {A : Type} (body : stringstream -> A -> stringstream)
    (xs : list A) :
  (forall t x, In x xs -> width (body t x) = 0%nat) ->
  forall t, width t = 0%nat -> width (for_each xs t body) = 0%nat.
Proof.
  unfold for_each.
  induction xs as [|x xs IH]; intros Hbody t Ht; simpl; [exact Ht|].
  apply IH; [|apply Hbody; now left].
  intros t' y Hy. apply Hbody. now right.
Qed.

Lemma keeps_step_text t0 t (s : string) : keeps t0 t -> keeps t0 (t << s).
Proof. intros H. eapply keeps_trans; [exact H | apply keeps_text]. Qed.

Lemma keeps_step_int t0 t n : keeps t0 t -> keeps t0 (t << Int n).
Proof. intros H. eapply keeps_trans; [exact H | apply keeps_int]. Qed.

Lemma keeps_step_endl t0 t : keeps t0 t -> keeps t0 (t << endl).
Proof. intros H. eapply keeps_trans; [exact H | apply keeps_endl]. Qed.

Lemma keeps_step_for_each {A : Type} t0 t
    (body : stringstream -> A -> stringstream) (xs : list A) :
  (forall t x, keeps t (body t x)) -> keeps t0 t ->
  keeps t0 (for_each xs t body).
Proof.
  intros Hbody H. eapply keeps_trans; [exact H | now apply keeps_for_each].
Qed.

Lemma keeps_grows t t' : keeps t t' -> grows t t'.
Proof. now intros [H _]. Qed.

Lemma grows_step_keeps t0 t t' : keeps t t' -> grows t0 t -> grows t0 t'.
Proof. intros [H _] H0. eapply grows_trans; eauto. Qed.

Lemma grows_step_for_each {A : Type} t0 t
    (body : stringstream -> A -> stringstream) (xs : list A) :
  (forall t x, In x xs -> grows t (body t x)) -> grows t0 t ->
  grows t0 (for_each xs t body).
Proof.
  intros Hbody H. eapply grows_trans; [exact H | now apply grows_for_each].
Qed.

(** A chain of insertions and loops, from its last step to its first. *)
Ltac keeps_chain :=
  repeat lazymatch goal with
         | |- keeps ?t ?t => apply keeps_refl
         | |- keeps _ (_ << endl) => apply keeps_step_endl
         | |- keeps _ (_ << Int _) => apply keeps_step_int
         | |- keeps _ (_ << Text _) => apply keeps_step_text
         | |- keeps _ (for_each _ _ _) => apply keeps_step_for_each; [intros|]
         end.

Section Frames.

Context {utils : StreamProtoUtils}.

Lemma write_enum_keeps text enu indent : keeps text (write_enum text enu indent).
Proof. unfold write_enum, GENERATE_MAPPING. cbv zeta. keeps_chain. Qed.

Lemma write_enum_width text enu indent :
  width (write_enum text enu indent) = 0%nat.
Proof. reflexivity. Qed.

Lemma write_field_grows text f indent : grows text (write_field text f indent).
Proof.
  unfold write_field. split; [reflexivity|].
  destruct text as [s fl w c]. unfold extends. cbn.
  rewrite !StrFacts.app_assoc. now eexists.
Qed.

Lemma write_field_width text f indent :
  width (write_field text f indent) = 0%nat.
Proof. reflexivity. Qed.

Lemma write_message_width text m indent :
  width (write_message text m indent) = 0%nat.
Proof. destruct m. reflexivity. Qed.

Lemma write_message_grows m :
  forall text indent, grows text (write_message text m indent).
Proof.
  induction m as [m IH] using DescriptorProto_nested_ind.
  intros text indent. destruct m as [nm es ns fs]. cbn [nested_type] in IH.
  cbn [write_message message_name enum_type nested_type field].
  unfold GENERATE_MAPPING. cbv zeta.
  repeat lazymatch goal with
         | |- grows ?t ?t => apply grows_refl
         | |- grows _ (_ << endl) =>
             eapply grows_step_keeps; [apply keeps_endl|]
         | |- grows _ (_ << Int _) =>
             eapply grows_step_keeps; [apply keeps_int|]
         | |- grows _ (_ << Text _) =>
             eapply grows_step_keeps; [apply keeps_text|]
         | |- grows ?t (write_enum ?t _ _) =>
             apply keeps_grows, write_enum_keeps
         | |- grows ?t (write_field ?t _ _) => apply write_field_grows
         | |- grows ?t (write_message ?t _ _) => now apply IH
         | |- grows _ (for_each _ _ _) =>
             apply grows_step_for_each; [intros|]
         end.
Qed.

End Frames.

(** X1. Whatever the state of the stream, an emitter only appends: the text
    that was in the buffer is the beginning of the text after it. *)
Theorem emitters_append_only {utils : StreamProtoUtils}
    (text : stringstream) (indent : string) :
  (forall enu, extends text (write_enum text enu indent))
  /\ (forall f, extends text (write_field text f indent))
  /\ (forall m, extends text (write_message text m indent)).
Proof.
  split; [|split].
  - intros enu. apply write_enum_keeps.
  - intros f. apply write_field_grows.
  - intros m. apply write_message_grows.
Qed.

(** X2. On a good stream, whatever its width, its base and its fill
    character, an emitter returns the stream with the flags it had, so with
    its numeric base, and with width zero; [write_enum] also keeps the fill
    character, [write_field] leaves ['0'].  (A stream that has failed is
    outside the record: there an insertion writes nothing and keeps the
    width.) *)
Theorem emitters_keep_flags {utils : StreamProtoUtils}
    (text : stringstream) (indent : string) :
  (forall enu,
     flags (write_enum text enu indent) = flags text
     /\ width (write_enum text enu indent) = 0%nat
     /\ fill (write_enum text enu indent) = fill text)
  /\ (forall f,
        flags (write_field text f indent) = flags text
        /\ width (write_field text f indent) = 0%nat
        /\ fill (write_field text f indent) = "0"%char)
  /\ (forall m,
        flags (write_message text m indent) = flags text
        /\ width (write_message text m indent) = 0%nat).
Proof.
  split; [|split].
  - intros enu. split; [apply write_enum_keeps|].
    split; [apply write_enum_width | apply write_enum_keeps].
  - intros f. split; [apply write_field_grows|].
    split; reflexivity.
  - intros m. split; [apply write_message_grows | apply write_message_width].
Qed.

(** ** The documents of a run *)

Lemma build_files_from {utils : StreamProtoUtils}
    (request : CodeGeneratorRequest) (fds : list FileDescriptorProto)
    (r : CodeGeneratorResponse) :
  file (fold_left
          (fun response file_descriptor =>
             if should_generate_for_file request (file_name file_descriptor)
             then write_header_file (parameter request) response file_descriptor
             else response)
          fds r)
  = (file r
     ++ map (fun fd => {| name := file_name fd ++ ".h";
                          content := unlines (file_lines fd) |})
            (filter (eligible request) fds))%list.
Proof.
  revert r. induction fds as [|fd fds IH]; intros r; cbn [fold_left filter].
  - cbn [map]. now rewrite app_nil_r.
  - rewrite IH. unfold eligible at 2.
    destruct (should_generate_for_file request (file_name fd)); [|reflexivity].
    rewrite write_header_file_plain. cbn [map]. now rewrite <- app_assoc.
Qed.

(** X3. The response of a run holds one document for every file the request
    asks for, in the order of the request; the document of a file is named
    after it with [.h] appended, and its text depends on the descriptor of
    that file alone, not on the parameter or on the other files. *)
Theorem build_files_documents {utils : StreamProtoUtils}
    (request : CodeGeneratorRequest) :
  file (build_files request)
  = map (fun fd => {| name := file_name fd ++ ".h";
                      content := unlines (file_lines fd) |})
        (filter (eligible request) (proto_file request)).
Proof.
  exact (build_files_from request (proto_file request) empty_response).
Qed.

(** ** The scopes of a document *)

Section FileScopes.

Context {utils : StreamProtoUtils}.

Hypothesis INDENT_spaces : spaces INDENT = true.

Lemma file_lines_markers (fd : FileDescriptorProto) :
  file_ok fd = true ->
  Forall (fun l => no_newline l = true) (file_lines fd)
  /\ flat_map classify (file_lines fd)
     = (map Open (split (package fd) ".")
        ++ flat_map (fun m => markers_of (scope_of m)) (message_type fd)
        ++ map (fun it => Close (" " ++ it)) (rev (split (package fd) ".")))%list.
Proof.
  unfold file_ok. rewrite !andb_true_iff.
  intros [[[[Hname Hguard] Hns] Hes] Hms].
  rewrite forallb_forall in Hns, Hes, Hms.
  assert (Hmsg : forall m, In m (message_type fd) ->
            Forall (fun l => no_newline l = true) (message_lines m "")
            /\ flat_map classify (message_lines m "") = markers_of (scope_of m)).
  { intros m Hm. apply (message_lines_markers INDENT_spaces); auto. }
  assert (Henums : Forall quiet
            (flat_map (fun e => enum_lines e "") (file_enum_type fd))).
  { apply Forall_flat_map. intros e He.
    apply (enum_lines_quiet INDENT_spaces); auto. }
  assert (Hrev : forall it, In it (rev (split (package fd) ".")) ->
            no_newline it = true).
  { intros it Hit. apply Hns. now apply in_rev. }
  unfold file_lines. split.
  - cbn [app].
    repeat (apply Forall_cons; [no_newlines|]).
    apply Forall_app; split.
    { rewrite Forall_map. apply Forall_forall. intros it Hit.
      pose proof (Hns it Hit). no_newlines. }
    apply Forall_cons; [reflexivity|].
    apply Forall_app; split; [now apply Forall_quiet_clean|].
    apply Forall_app; split.
    { apply Forall_flat_map. intros m Hm. now apply Hmsg. }
    apply Forall_app; split.
    { rewrite Forall_map. apply Forall_forall. intros it Hit.
      pose proof (Hrev it Hit). no_newlines. }
    apply Forall_cons; [reflexivity|].
    apply Forall_cons; [no_newlines | apply Forall_nil].
  - rewrite !flat_map_app.
    rewrite (flat_map_quiet _ Henums).
    rewrite (flat_map_flat_map classify _ (fun m => markers_of (scope_of m)))
      by (intros m Hm; now apply Hmsg).
    rewrite !flat_map_of_map.
    rewrite (flat_map_ext (fun it => classify ("namespace " ++ it ++ " {"))
                          (fun it => [Open it]))
      by (intros; apply classify_open).
    rewrite (flat_map_ext (fun it => classify ("} // " ++ it))
                          (fun it => [Close (" " ++ it)]))
      by (intros it; exact (classify_close (" " ++ it))).
    rewrite !flat_map_singleton.
    replace (flat_map classify
               ["// Generated by protoc-gen-cppstream. DO NOT MODIFY.";
                "// source: " ++ file_name fd; "";
                "#ifndef " ++ header_guard fd;
                "#define " ++ header_guard fd; ""])
      with (@nil marker) by reflexivity.
    replace (flat_map classify [""]) with (@nil marker) by reflexivity.
    replace (flat_map classify [""; "#endif // " ++ header_guard fd])
      with (@nil marker) by reflexivity.
    cbn [app]. now rewrite app_nil_r.
Qed.

End FileScopes.

(** X4. The document of a file reads back line by line, and its scopes are:
    one for every segment of the package, in order; inside them the scopes
    of the messages of the file; then the segments closed in the opposite
    order.  A segment is closed by [} // <segment>], with a space that the
    closing line of a message does not have. *)
Theorem write_header_file_scopes {utils : StreamProtoUtils}
    (request_parameter : string) (response : CodeGeneratorResponse)
    (fd : FileDescriptorProto) :
  spaces INDENT = true -> file_ok fd = true ->
  exists doc,
    file (write_header_file request_parameter response fd)
    = (file response ++ [doc])%list
    /\ name doc = file_name fd ++ ".h"
    /\ lines (content doc) = file_lines fd
    /\ scope_markers (content doc)
       = (map Open (split (package fd) ".")
          ++ flat_map (fun m => markers_of (scope_of m)) (message_type fd)
          ++ map (fun it => Close (" " ++ it))
                 (rev (split (package fd) ".")))%list.
Proof.
  intros HI Hok.
  destruct (file_lines_markers HI fd Hok) as [Hclean Hmarkers].
  eexists. split; [apply write_header_file_plain|].
  cbn [name content]. split; [reflexivity|].
  unfold scope_markers. rewrite (lines_unlines _ Hclean). now split.
Qed.

Lemma write_header_file_scopes_witness :
  exists doc,
    file (@write_header_file Sample.utils "" empty_response Sample.shapes_proto)
    = [doc]
    /\ name doc = "a/shapes.proto.h"
    /\ scope_markers (content doc)
       = [Open "a"; Open "b"; Open "Shape"; Open "Point"; Close "Point";
          Close "Shape"; Close " b"; Close " a"].
Proof.
  destruct (@write_header_file_scopes Sample.utils "" empty_response
              Sample.shapes_proto eq_refl eq_refl)
    as (doc & Hfile & Hname & _ & Hmarkers).
  exists doc. split; [exact Hfile|]. split; [exact Hname | exact Hmarkers].
Defined.

(** ** Indentation *)

Lemma indented_by_app (indent rest : string) : indented_by indent (indent ++ rest).
Proof. right. now exists rest. Qed.

Lemma indented_by_deeper (indent more l : string) :
  indented_by (indent ++ more) l -> indented_by indent l.
Proof.
  intros [-> | [rest ->]]; [now left|].
  right. exists (more ++ rest). now rewrite StrFacts.app_assoc.
Qed.

Lemma Forall_indented_deeper (indent more : string) (ls : list string) :
  Forall (indented_by (indent ++ more)) ls -> Forall (indented_by indent) ls.
Proof. apply Forall_impl. intros l. apply indented_by_deeper. Qed.

Section Indentation.

Context {utils : StreamProtoUtils}.

Lemma enum_lines_indented (e : EnumDescriptorProto) (indent : string) :
  Forall (indented_by indent) (enum_lines e indent).
Proof.
  unfold enum_lines, enum_names_table, enum_values_table.
  repeat first [ apply Forall_app; split | apply Forall_cons | apply Forall_nil ];
    try (rewrite !Forall_map; apply Forall_forall; intros v _);
    try apply indented_by_app.
  now left.
Qed.

Lemma field_lines_indented (f : FieldDescriptorProto) (indent : string) :
  Forall (indented_by indent) (field_lines f indent).
Proof.
  unfold field_lines, field_comment_line.
  repeat apply Forall_cons; try apply indented_by_app; [now left | apply Forall_nil].
Qed.

Lemma field_table_lines_indented (fs : list FieldDescriptorProto) (indent : string) :
  Forall (indented_by indent) (field_table_lines fs indent).
Proof.
  unfold field_table_lines.
  repeat first [ apply Forall_app; split | apply Forall_cons | apply Forall_nil ];
    try (rewrite !Forall_map; apply Forall_forall; intros v _);
    try apply indented_by_app.
  now left.
Qed.

Lemma message_lines_indented (m : DescriptorProto) :
  forall indent, Forall (indented_by indent) (message_lines m indent).
Proof.
  induction m as [m IH] using DescriptorProto_nested_ind.
  intros indent. destruct m as [nm es ns fs]. cbn [nested_type] in IH.
  cbn [message_lines message_name enum_type nested_type field app].
  apply Forall_cons; [apply indented_by_app|].
  apply Forall_cons; [apply indented_by_app|].
  apply Forall_app; split.
  { apply Forall_flat_map. intros e _.
    apply (Forall_indented_deeper indent INDENT), enum_lines_indented. }
  apply Forall_app; split.
  { apply Forall_flat_map. intros n Hn.
    apply (Forall_indented_deeper indent INDENT). now apply IH. }
  apply Forall_app; split.
  { apply Forall_flat_map. intros f _.
    apply (Forall_indented_deeper indent INDENT), field_lines_indented. }
  apply Forall_app; split.
  { apply (Forall_indented_deeper indent INDENT), field_table_lines_indented. }
  apply Forall_cons; [apply indented_by_app|].
  apply Forall_cons; [now left | apply Forall_nil].
Qed.

End Indentation.

(** X5. Every line that [write_message] renders for a message is empty or
    starts with the indentation the message was given: nothing inside a
    message, however deep, stands to the left of its opening line. *)
Theorem write_message_indented {utils : StreamProtoUtils}
    (m : DescriptorProto) (indent : string) :
  spaces INDENT = true -> spaces indent = true -> message_ok m = true ->
  Forall (indented_by indent)
         (lines (str (write_message new_stringstream m indent))).
Proof.
  intros HI Hi Hm.
  destruct (message_lines_markers HI m indent Hi Hm) as [Hclean _].
  change new_stringstream with (plain "" " ").
  rewrite str_write_message. cbn [append].
  rewrite (lines_unlines _ Hclean). apply message_lines_indented.
Qed.

Lemma write_message_indented_witness :
  Forall (indented_by "  ")
         (lines (str (@write_message Sample.utils new_stringstream
                        Sample.shape "  "))).
Proof.
  exact (@write_message_indented Sample.utils Sample.shape "  "
           eq_refl eq_refl eq_refl).
Defined.

(** ** Enums and fields open no scope *)

(** X6. The text of an enum and the text of a field hold no line that opens
    or closes a scope: only messages (and the package) make scopes. *)
Theorem write_enum_field_no_scope {utils : StreamProtoUtils}
    (indent : string) :
  spaces INDENT = true -> spaces indent = true ->
  (forall enu, enum_ok enu = true ->
     scope_markers (str (write_enum new_stringstream enu indent)) = [])
  /\ (forall f, field_ok f = true ->
        scope_markers (str (write_field new_stringstream f indent)) = []).
Proof.
  intros HI Hi. change new_stringstream with (plain "" " "). split.
  - intros enu Hok. rewrite str_write_enum. cbn [append].
    pose proof (enum_lines_quiet HI enu indent Hi Hok) as Hq.
    unfold scope_markers.
    rewrite (lines_unlines _ (Forall_quiet_clean _ Hq)).
    now apply flat_map_quiet.
  - intros f Hok. rewrite str_write_field. cbn [append].
    pose proof (field_lines_quiet f indent Hi Hok) as Hq.
    unfold scope_markers.
    rewrite (lines_unlines _ (Forall_quiet_clean _ Hq)).
    now apply flat_map_quiet.
Qed.

Lemma write_enum_field_no_scope_witness :
  scope_markers (str (@write_enum Sample.utils new_stringstream
                        Sample.color "    ")) = []
  /\ scope_markers (str (@write_field Sample.utils new_stringstream
                           Sample.radius "    ")) = [].
Proof.
  destruct (@write_enum_field_no_scope Sample.utils "    " eq_refl eq_refl)
    as [He Hf].
  split; [apply He | apply Hf]; reflexivity.
Defined.

(** ** Enums without values, messages without fields *)

(** X7. An enum without values still gets its count and both tables: the
    count is 0 and the tables are declared with size 0 and no entry. *)
Theorem write_enum_no_values {utils : StreamProtoUtils}
    (s : string) (c : ascii) (enu : EnumDescriptorProto) (indent : string) :
  enum_value enu = [] ->
  let name := make_constant_name (enum_name enu) in
  str (write_enum (plain s c) enu indent)
  = s ++ unlines
      [indent ++ "// enum " ++ enum_name enu;
       indent ++ "static const int _ENUM_" ++ name ++ "_COUNT = 0;";
       indent ++ "static const char* _ENUM_" ++ name ++ "_NAMES[0] = {";
       indent ++ "};";
       indent ++ "static const int _ENUM_" ++ name ++ "_VALUES[0] = {";
       indent ++ "};";
       ""].
Proof.
  intros H name. rewrite str_write_enum.
  unfold enum_lines, enum_names_table, enum_values_table. rewrite H.
  reflexivity.
Qed.

Lemma write_enum_no_values_witness :
  str (@write_enum Sample.utils (plain "" " ")
         {| enum_name := "Nothing"; enum_value := [] |} "")
  = unlines
      ["// enum Nothing";
       "static const int _ENUM_NOTHING_COUNT = 0;";
       "static const char* _ENUM_NOTHING_NAMES[0] = {";
       "};";
       "static const int _ENUM_NOTHING_VALUES[0] = {";
       "};";
       ""].
Proof.
  exact (@write_enum_no_values Sample.utils "" " "
           {| enum_name := "Nothing"; enum_value := [] |} "" eq_refl).
Defined.

(** X8. A message without fields still gets its field count and both field
    tables, after its enums and nested messages: the count is 0 and the
    tables are declared with size 0 and no entry. *)
Theorem write_message_no_fields {utils : StreamProtoUtils}
    (s : string) (c : ascii) (m : DescriptorProto) (indent : string) :
  field m = [] ->
  let indented := indent ++ INDENT in
  str (write_message (plain s c) m indent)
  = s ++ unlines
      ([indent ++ "// message " ++ message_name m;
        indent ++ "namespace " ++ message_name m ++ " {"]
       ++ flat_map (fun e => enum_lines e indented) (enum_type m)
       ++ flat_map (fun n => message_lines n indented) (nested_type m)
       ++ [indented ++ "static const int _FIELD_COUNT = 0;";
           indented ++ "static const char* _FIELD_NAMES[0] = {";
           indented ++ "};";
           indented ++ "static const uint64_t _FIELD_IDS[0] = {";
           indented ++ "};";
           "";
           indent ++ "} //" ++ message_name m;
           ""]).
Proof.
  intros H indented. rewrite str_write_message.
  destruct m as [nm es ns fs]. cbn [field] in H. subst fs.
  reflexivity.
Qed.

Lemma write_message_no_fields_witness :
  str (@write_message Sample.utils (plain "" " ")
         {| message_name := "Empty"; enum_type := []; nested_type := [];
            field := [] |} "")
  = unlines
      ["// message Empty";
       "namespace Empty {";
       "    static const int _FIELD_COUNT = 0;";
       "    static const char* _FIELD_NAMES[0] = {";
       "    };";
       "    static const uint64_t _FIELD_IDS[0] = {";
       "    };";
       "";
       "} //Empty";
       ""].
Proof.
  exact (@write_message_no_fields Sample.utils "" " "
           {| message_name := "Empty"; enum_type := []; nested_type := [];
              field := [] |} "" eq_refl).
Defined.

(** ** The values of an enum *)

Lemma digit_char_decimal (d : Z) :
  0 <= d < 10 -> is_decimal_digit (digit_char d) = true.
Proof.
  intros H.
  assert (d = 0 \/ d = 1 \/ d = 2 \/ d = 3 \/ d = 4 \/ d = 5 \/ d = 6
          \/ d = 7 \/ d = 8 \/ d = 9) as Hd by lia.
  repeat (destruct Hd as [-> | Hd]; [reflexivity|]). now subst.
Qed.

Lemma digits_aux_decimal (fuel : nat) (n : Z) (acc : string) :
  Str.all is_decimal_digit acc = true ->
  Str.all is_decimal_digit (digits_aux fuel 10 n acc) = true.
Proof.
  revert n acc. induction fuel as [|fuel IH]; intros n acc Hacc; simpl.
  - exact Hacc.
  - assert (Hd : is_decimal_digit (digit_char (n mod 10)) = true).
    { apply digit_char_decimal. apply Z.mod_pos_bound. lia. }
    destruct (n / 10 =? 0); [|apply IH]; simpl; now rewrite Hd.
Qed.

Lemma digits_aux_nonempty (fuel : nat) (b n : Z) (acc : string) :
  acc <> "" -> digits_aux fuel b n acc <> "".
Proof.
  revert n acc. induction fuel as [|fuel IH]; intros n acc Hacc; simpl.
  - exact Hacc.
  - destruct (n / b =? 0); [discriminate|]. apply IH. discriminate.
Qed.

Lemma digits_nonempty (b n : Z) : digits b n <> "".
Proof.
  unfold digits. simpl.
  destruct (n / b =? 0); [discriminate|].
  apply digits_aux_nonempty. discriminate.
Qed.

Lemma parse_digits_digits (n : Z) :
  0 <= n -> parse_digits (digits 10 n) = Some n.
Proof.
  intros Hn. unfold parse_digits.
  pose proof (digits_nonempty 10 n) as Hne.
  pose proof (digits_aux_decimal (S (Z.to_nat (Z.log2 n))) n "" eq_refl) as Hd.
  fold (digits 10 n) in Hd.
  pose proof (digits_number 10 n ltac:(lia) Hn) as Hv.
  destruct (digits 10 n) as [|c r]; [now destruct Hne|].
  now rewrite Hd, Hv.
Qed.

(** The decimal text of a number is a decimal text, and that of the
    number. *)
Lemma parse_decimal_decimal (n : Z) : parse_decimal (decimal n) = Some n.
Proof.
  unfold decimal. destruct (Z.ltb_spec n 0) as [Hneg | Hpos].
  - cbn [append parse_decimal]. rewrite parse_digits_digits by lia.
    cbn [option_map]. f_equal. lia.
  - pose proof (parse_digits_digits n Hpos) as Hp.
    pose proof (digits_aux_decimal (S (Z.to_nat (Z.log2 n))) n "" eq_refl) as Hd.
    fold (digits 10 n) in Hd.
    destruct (digits 10 n) as [|c r]; [exact Hp|].
    cbn [Str.all] in Hd. apply andb_true_iff in Hd as [Hc _].
    unfold parse_decimal.
    destruct c as [[] [] [] [] [] [] [] []]; try exact Hp; discriminate Hc.
Qed.

(** X9. After the comment line of an enum come its constants, one a line
    and in the order of the declaration: line [i + 1] declares the constant
    name of value [i] with the decimal text of the number of the value, a
    minus sign first when it is negative; the text is decimal digits after
    the sign and reads back as the number. *)
Theorem write_enum_constants {utils : StreamProtoUtils}
    (enu : EnumDescriptorProto) (indent : string) :
  spaces INDENT = true -> spaces indent = true -> enum_ok enu = true ->
  forall i v, nth_error (enum_value enu) i = Some v ->
  nth_error (lines (str (write_enum new_stringstream enu indent))) (S i)
  = Some (indent ++ "const int " ++ make_constant_name (value_name v)
                 ++ " = " ++ decimal (value_number v) ++ ";")
  /\ parse_decimal (decimal (value_number v)) = Some (value_number v).
Proof.
  intros HI Hi Hok i v Hv.
  pose proof (enum_lines_quiet HI enu indent Hi Hok) as Hq.
  change new_stringstream with (plain "" " ").
  rewrite str_write_enum. cbn [append].
  rewrite (lines_unlines _ (Forall_quiet_clean _ Hq)).
  split; [|apply parse_decimal_decimal].
  unfold enum_lines. cbn [app nth_error].
  rewrite nth_error_app1
    by (rewrite length_map; apply nth_error_Some; congruence).
  now rewrite nth_error_map, Hv.
Qed.

Lemma write_enum_constants_witness :
  nth_error (lines (str (@write_enum Sample.utils new_stringstream
                           {| enum_name := "Sign";
                              enum_value :=
                                [ {| value_name := "PLUS"; value_number := 1 |};
                                  {| value_name := "MINUS";
                                     value_number := -1 |} ] |} ""))) 2
  = Some "const int MINUS = -1;"
  /\ parse_decimal "-1" = Some (-1).
Proof.
  exact (@write_enum_constants Sample.utils
           {| enum_name := "Sign";
              enum_value := [ {| value_name := "PLUS"; value_number := 1 |};
                              {| value_name := "MINUS"; value_number := -1 |} ] |}
           "" eq_refl eq_refl eq_refl 1%nat
           {| value_name := "MINUS"; value_number := -1 |} eq_refl).
Defined.

(** ** Braces *)

Lemma brace_balance_app (a b : string) :
  brace_balance (a ++ b) = brace_balance a + brace_balance b.
Proof. induction a as [|c a IH]; simpl; [reflexivity | rewrite IH; lia]. Qed.

Lemma no_brace_balance (s : string) : no_brace s = true -> brace_balance s = 0.
Proof.
  unfold no_brace. induction s as [|c s IH]; simpl; [reflexivity|].
  intros H. apply andb_true_iff in H as [Hc Hs]. rewrite (IH Hs).
  unfold brace, not_brace, is_brace in *.
  destruct (Ascii.eqb c "{"); [discriminate|].
  destruct (Ascii.eqb c "}"); [discriminate | reflexivity].
Qed.

Lemma no_brace_app (a b : string) :
  no_brace a = true -> no_brace b = true -> no_brace (a ++ b) = true.
Proof. unfold no_brace. intros Ha Hb. now rewrite StrFacts.all_app, Ha, Hb. Qed.

Lemma hex_digits_no_brace (s : string) :
  Str.all is_hex_digit s = true -> no_brace s = true.
Proof.
  apply StrFacts.all_impl. intros c Hc.
  destruct c as [[] [] [] [] [] [] [] []]; try discriminate; reflexivity.
Qed.

Lemma decimal_no_brace (n : Z) : no_brace (decimal n) = true.
Proof.
  unfold decimal. destruct (n <? 0).
  - apply no_brace_app; [reflexivity|].
    apply hex_digits_no_brace, digits_aux_hex. reflexivity.
  - apply hex_digits_no_brace, digits_aux_hex. reflexivity.
Qed.

Lemma hex16_no_brace (n : Z) : no_brace (hex16 n) = true.
Proof. apply hex_digits_no_brace, hex16_digits. Qed.

Lemma stripPrefix_no_brace (s pre : string) :
  no_brace s = true -> no_brace (stripPrefix s pre) = true.
Proof. apply stripPrefix_all. Qed.

(** The braces of a text given line by line. *)
Lemma brace_balance_unlines_cons (l : string) (ls : list string) :
  brace_balance (unlines (l :: ls)) = brace_balance l + brace_balance (unlines ls).
Proof. cbn [unlines]. rewrite !brace_balance_app. reflexivity. Qed.

Lemma brace_balance_unlines_app (a b : list string) :
  brace_balance (unlines (a ++ b))
  = brace_balance (unlines a) + brace_balance (unlines b).
Proof. now rewrite unlines_app, brace_balance_app. Qed.

Lemma brace_balance_unlines_flat_map {A : Type} (g : A -> list string)
    (xs : list A) (k : Z) :
  (forall x, In x xs -> brace_balance (unlines (g x)) = k) ->
  brace_balance (unlines (flat_map g xs)) = k * Z.of_nat (List.length xs).
Proof.
  induction xs as [|x xs IH]; intros H; [simpl; lia|].
  cbn [flat_map List.length]. rewrite brace_balance_unlines_app, H by now left.
  rewrite IH by (intros y Hy; apply H; now right). lia.
Qed.

Lemma brace_balance_unlines_map {A : Type} (g : A -> string)
    (xs : list A) (k : Z) :
  (forall x, In x xs -> brace_balance (g x) = k) ->
  brace_balance (unlines (map g xs)) = k * Z.of_nat (List.length xs).
Proof.
  intros H. rewrite <- flat_map_singleton.
  apply brace_balance_unlines_flat_map. intros x Hx.
  rewrite brace_balance_unlines_cons, H by exact Hx. simpl. lia.
Qed.

Create HintDb no_brace.

#[export] Hint Resolve decimal_no_brace hex16_no_brace stripPrefix_no_brace
  : no_brace.

(** The braces of a line: piece by piece, the pieces without braces count
    nothing, the literals are counted. *)
Ltac line_balance :=
  rewrite ?brace_balance_app;
  repeat match goal with
         | |- context [brace_balance ?x] =>
             rewrite (no_brace_balance x)
               by solve [ auto with no_brace | reflexivity ]
         end;
  try reflexivity.

Section Braces.

Context {utils : StreamProtoUtils}.

Hypothesis INDENT_no_brace : no_brace INDENT = true.

Lemma name_all_name (s : string) : name_all not_brace s = true -> no_brace s = true.
Proof. unfold name_all. intros H. now apply andb_true_iff in H. Qed.

Lemma name_all_constant (s : string) :
  name_all not_brace s = true -> no_brace (make_constant_name s) = true.
Proof. unfold name_all. intros H. now apply andb_true_iff in H. Qed.

Hint Resolve name_all_name name_all_constant INDENT_no_brace : no_brace.

Lemma no_brace_indented (indent : string) :
  no_brace indent = true -> no_brace (indent ++ INDENT) = true.
Proof. intros H. now apply no_brace_app. Qed.

Lemma enum_lines_balance (e : EnumDescriptorProto) (indent : string) :
  no_brace indent = true -> enum_all not_brace e = true ->
  brace_balance (unlines (enum_lines e indent)) = 0.
Proof.
  intros Hi He. unfold enum_all in He. apply andb_true_iff in He as [Hn Hv].
  rewrite forallb_forall in Hv.
  unfold enum_lines, enum_names_table, enum_values_table.
  rewrite !map_map.
  rewrite !brace_balance_unlines_app, !brace_balance_unlines_cons.
  rewrite (brace_balance_unlines_map _ _ 0)
    by (intros v Hin; pose proof (Hv v Hin); unfold enum_constant_line;
        line_balance).
  rewrite (brace_balance_unlines_map _ _ 0)
    by (intros v Hin; pose proof (Hv v Hin); unfold quoted_entry;
        line_balance).
  rewrite (brace_balance_unlines_map _ _ 0)
    by (intros v Hin; pose proof (Hv v Hin); unfold constant_entry;
        line_balance).
  line_balance.
Qed.

Lemma field_lines_balance (f : FieldDescriptorProto) (indent : string) :
  no_brace indent = true -> field_all not_brace f = true ->
  brace_balance (unlines (field_lines f indent)) = 0.
Proof.
  intros Hi Hf. unfold field_all in Hf. apply andb_true_iff in Hf as [Hn Ht].
  unfold field_lines, field_comment_line.
  rewrite !brace_balance_unlines_cons.
  destruct (field_label f), (packed (field_options f)); line_balance.
Qed.

Lemma field_table_lines_balance (fs : list FieldDescriptorProto) (indent : string) :
  no_brace indent = true -> forallb (field_all not_brace) fs = true ->
  brace_balance (unlines (field_table_lines fs indent)) = 0.
Proof.
  intros Hi Hfs. rewrite forallb_forall in Hfs.
  assert (Hname : forall f, In f fs -> name_all not_brace (field_name f) = true).
  { intros f Hin. specialize (Hfs f Hin). unfold field_all in Hfs.
    now apply andb_true_iff in Hfs. }
  unfold field_table_lines.
  rewrite !brace_balance_unlines_app, !brace_balance_unlines_cons.
  rewrite (brace_balance_unlines_map _ _ 0)
    by (intros f Hin; pose proof (Hname f Hin); unfold quoted_entry;
        line_balance).
  rewrite (brace_balance_unlines_map _ _ 0)
    by (intros f Hin; pose proof (Hname f Hin); unfold constant_entry;
        line_balance).
  line_balance.
Qed.

Lemma message_lines_balance (m : DescriptorProto) :
  forall indent, no_brace indent = true -> message_all not_brace m = true ->
  brace_balance (unlines (message_lines m indent)) = 0.
Proof.
  induction m as [m IH] using DescriptorProto_nested_ind.
  intros indent Hi Hm. destruct m as [nm es ns fs]. cbn [nested_type] in IH.
  cbn [message_all message_name enum_type nested_type field] in Hm.
  rewrite !andb_true_iff in Hm. destruct Hm as [[[Hnm Hes] Hns] Hfs].
  rewrite forallb_forall in Hes, Hns.
  pose proof (no_brace_indented indent Hi) as Hii.
  cbn [message_lines message_name enum_type nested_type field].
  rewrite !brace_balance_unlines_app, !brace_balance_unlines_cons.
  rewrite (brace_balance_unlines_flat_map _ es 0)
    by (intros e He; apply enum_lines_balance; auto).
  rewrite (brace_balance_unlines_flat_map _ ns 0)
    by (intros n Hn; apply IH; auto).
  rewrite (brace_balance_unlines_flat_map _ fs 0)
    by (intros f Hf; apply field_lines_balance; auto;
        rewrite forallb_forall in Hfs; auto).
  rewrite field_table_lines_balance by assumption.
  fold (no_brace nm) in Hnm.
  line_balance.
Qed.

Lemma file_lines_balance (fd : FileDescriptorProto) :
  file_all not_brace fd = true -> brace_balance (unlines (file_lines fd)) = 0.
Proof.
  unfold file_all. rewrite !andb_true_iff.
  intros [[[[Hname Hguard] Hns] Hes] Hms].
  rewrite forallb_forall in Hns, Hes, Hms.
  fold (no_brace (file_name fd)) in Hname.
  fold (no_brace (header_guard fd)) in Hguard.
  unfold file_lines.
  rewrite !brace_balance_unlines_app, !brace_balance_unlines_cons.
  rewrite (brace_balance_unlines_map _ _ 1)
    by (intros it Hit; pose proof (Hns it Hit) as H;
        fold (no_brace it) in H; line_balance).
  rewrite (brace_balance_unlines_map _ _ (-1))
    by (intros it Hit; apply in_rev in Hit; pose proof (Hns it Hit) as H;
        fold (no_brace it) in H; line_balance).
  rewrite (brace_balance_unlines_flat_map _ _ 0)
    by (intros e He; apply enum_lines_balance; auto).
  rewrite (brace_balance_unlines_flat_map _ _ 0)
    by (intros m Hm; apply message_lines_balance; auto).
  rewrite length_rev. line_balance.
  cbn [unlines brace_balance]. lia.
Qed.

End Braces.

(** X10. The braces of a document are balanced: it closes as many as it
    opens, when no name and no indentation brings a brace of its own. *)
Theorem write_header_file_braces {utils : StreamProtoUtils}
    (request_parameter : string) (response : CodeGeneratorResponse)
    (fd : FileDescriptorProto) :
  no_brace INDENT = true -> file_all not_brace fd = true ->
  exists doc,
    file (write_header_file request_parameter response fd)
    = (file response ++ [doc])%list
    /\ brace_balance (content doc) = 0.
Proof.
  intros HI Hok. eexists. split; [apply write_header_file_plain|].
  cbn [content]. now apply file_lines_balance.
Qed.

Lemma write_header_file_braces_witness :
  exists doc,
    file (@write_header_file Sample.utils "" empty_response Sample.shapes_proto)
    = [doc]
    /\ brace_balance (content doc) = 0.
Proof.
  exact (@write_header_file_braces Sample.utils "" empty_response
           Sample.shapes_proto eq_refl eq_refl).
Defined.

(** ** The include guard *)

Lemma last_two {A : Type} (l : list A) (a b d : A) :
  last (l ++ [a; b])%list d = b.
Proof.
  change [a; b] with ([a] ++ [b])%list. rewrite app_assoc. apply last_last.
Qed.

(** X11. The document of a file is guarded by one identifier: its fourth
    line tests it, its fifth defines it and its last line closes the test
    with the same identifier in its comment.  The identifier is the constant
    name of [ANDROID_<file name>_stream_h] with the slashes and the dots of
    the file name as underscores. *)
Theorem write_header_file_guard {utils : StreamProtoUtils}
    (request_parameter : string) (response : CodeGeneratorResponse)
    (fd : FileDescriptorProto) :
  spaces INDENT = true -> file_ok fd = true ->
  let guard :=
    make_constant_name
      (replace_string ("ANDROID_" ++ replace_string (file_name fd) "/" "_")
                      "." "_" ++ "_stream_h") in
  exists doc,
    file (write_header_file request_parameter response fd)
    = (file response ++ [doc])%list
    /\ nth_error (lines (content doc)) 3 = Some ("#ifndef " ++ guard)
    /\ nth_error (lines (content doc)) 4 = Some ("#define " ++ guard)
    /\ last (lines (content doc)) "" = "#endif // " ++ guard.
Proof.
  intros HI Hok guard.
  destruct (file_lines_markers HI fd Hok) as [Hclean _].
  eexists. split; [apply write_header_file_plain|].
  cbn [content]. rewrite (lines_unlines _ Hclean).
  unfold file_lines. fold guard. change (header_guard fd) with guard.
  split; [reflexivity|]. split; [reflexivity|].
  rewrite !app_assoc. apply last_two.
Qed.

Lemma write_header_file_guard_witness :
  exists doc,
    file (@write_header_file Sample.utils "" empty_response Sample.shapes_proto)
    = [doc]
    /\ nth_error (lines (content doc)) 3
       = Some "#ifndef ANDROID_A_SHAPES_PROTO_STREAM_H"
    /\ nth_error (lines (content doc)) 4
       = Some "#define ANDROID_A_SHAPES_PROTO_STREAM_H"
    /\ last (lines (content doc)) ""
       = "#endif // ANDROID_A_SHAPES_PROTO_STREAM_H".
Proof.
  exact (@write_header_file_guard Sample.utils "" empty_response
           Sample.shapes_proto eq_refl eq_refl).
Defined.
